(** * Startup orchestrator, collection read handler and artist update
      validator of the API scaffold

    A shallow embedding of [src/app.js], [src/api/courses/read.js] and
    [src/api/artists/_validates/update.validate.js].

    The module body of [app.js] and the callbacks it registers are written as
    computations in a state monad over a [World]: the mutable [environment]
    object, the ordered trace of calls made to the collaborators, and the
    callbacks that are registered but have not run yet.  The Node event loop
    is a step function that consumes one [Input] per turn. *)

From Stdlib Require Import ZArith QArith Lia.
From stdpp Require Import base strings gmap list pretty.

Set Warnings "-register-all".

Open Scope string_scope.
Open Scope list_scope.
Open Scope Z_scope.

(** ** JavaScript data *)

(** An [Error] object: the handlers only read [stack]. *)
Record JsError := mkError { message : string; stack : string }.

(** JSON values, as [bodyParser.json()] puts them in [req.body].  A string
    is the sequence of its code units, so that [String.length] is the
    [length] of the JavaScript string; a number is a rational. *)
Inductive Json :=
| JNull
| JBool (b : bool)
| JNum (q : Q)
| JStr (s : string)
| JArr (items : list Json)
| JObj (fields : list (string * Json)).

(** The state of a promise when its reactions are examined. *)
Inductive Settlement (A : Type) :=
| Fulfilled (value : A)
| Rejected (reason : JsError)
| Pending.
Arguments Fulfilled {A} value.
Arguments Rejected {A} reason.
Arguments Pending {A}.

Definition nl : string := String (Ascii.ascii_of_nat 10) "".
Definition tab : string := String (Ascii.ascii_of_nat 9) "".

(** ** The environment object ([config.getEnv()]) *)

Record AppEnv := mkAppEnv {
  app_name : string;
  app_locale : string;
  app_timezone : string }.

Record SslEnv := mkSslEnv { hpkpKeys : list string }.

Record ServerEnv := mkServerEnv {
  host : string;
  port : Z;
  secure : bool;
  cors : gmap string string;
  ssl : SslEnv }.

(** What [environment.databases] maps a connection name to. *)
Record ConnectionSpec := mkConnectionSpec { uri : string }.

Record Environment := mkEnvironment {
  app : AppEnv;
  server : ServerEnv;
  databases : gmap string ConnectionSpec }.

(** [environment.server.cors[key] = value] *)
Definition set_cors_header (key value : string) (e : Environment) : Environment :=
  {| app := app e;
     server := {| host := host (server e);
                  port := port (server e);
                  secure := secure (server e);
                  cors := <[key := value]> (cors (server e));
                  ssl := ssl (server e) |};
     databases := databases e |}.

(** ** Effects: state passing with exceptions *)

(** A computation over a mutable store [S] that returns a value or throws. *)
Definition Eff (S A : Type) : Type := S → (JsError + A) * S.

#[global] Instance Eff_ret {S} : MRet (Eff S) := λ A a s, (inr a, s).
#[global] Instance Eff_bind {S} : MBind (Eff S) := λ A B f m s,
  match m s with
  | (inr a, s') => f a s'
  | (inl e, s') => (inl e, s')
  end.

Definition throw {S A} (e : JsError) : Eff S A := λ s, (inl e, s).
Definition get {S} : Eff S S := λ s, (inr s, s).
Definition modify {S} (f : S → S) : Eff S unit := λ s, (inr tt, f s).
Definition exec {S A} (m : Eff S A) (s : S) : S := snd (m s).

(** [p.then(f)]: [f] runs when [p] is fulfilled; a throw inside [f] rejects
    the derived promise; a rejection of [p] passes through. *)
Definition then_ {S A B} (p : Settlement A) (f : A → Eff S B) : Eff S (Settlement B) :=
  λ s, match p with
       | Fulfilled v =>
           match f v s with
           | (inr b, s') => (inr (Fulfilled b), s')
           | (inl e, s') => (inr (Rejected e), s')
           end
       | Rejected e => (inr (Rejected e), s)
       | Pending => (inr Pending, s)
       end.

(** [p.catch(g)]: [g] runs when [p] is rejected; a throw inside [g] rejects
    the derived promise; a fulfilment of [p] passes through. *)
Definition catch_ {S A} (p : Settlement A) (g : JsError → Eff S A) : Eff S (Settlement A) :=
  λ s, match p with
       | Fulfilled v => (inr (Fulfilled v), s)
       | Rejected e =>
           match g e s with
           | (inr a, s') => (inr (Fulfilled a), s')
           | (inl e', s') => (inr (Rejected e'), s')
           end
       | Pending => (inr Pending, s)
       end.

(** ** The response envelope ([res.api]) *)

(** [res.api.codes] *)
Inductive Code := OK | UNPROCESSABLE_ENTITY | INTERNAL_SERVER_ERROR | NOT_FOUND | UNAUTHORIZED.

(** One entry of a Joi error's [details]. *)
Record Detail := mkDetail { path : list string; type : string }.

(** The page metadata a pagination result carries. *)
Record PageMeta := mkPageMeta {
  totalCount : Z;
  page : Z;
  limit : Z;
  pageCount : Z }.

(** What [Courses.paginate] resolves to: the handler reads [result.data] and
    [result.paginate]. *)
Record PageResult := mkPageResult {
  result_data : list Json;
  result_paginate : PageMeta }.

(** First argument of [res.api.send]. *)
Inductive Payload :=
| Items (records : list Json)
| Text (s : string)
| Details (details : list Detail).

(** Third argument of [res.api.send]: absent, or [{paginate: ...}]. *)
Inductive Meta :=
| NoMeta
| PaginateMeta (p : PageMeta).

Record Envelope := mkEnvelope {
  env_status : Code;
  env_data : Payload;
  env_meta : Meta }.

(** The response side of one request: every [send] made on it, in order, and
    how often [next] was called. *)
Record Res := mkRes { sent : list Envelope; nexts : nat }.

Definition fresh_res : Res := {| sent := []; nexts := 0 |}.

(** Modelled from the spec: the Response class ([core/Response]) is absent.
    [send(payload, code, meta?)] wraps [payload] under [data], attaches
    [meta] if present and sets the status to [code].  Every call is recorded,
    so that a second [send] on one request is observable. *)
Definition send (payload : Payload) (code : Code) (meta : Meta) : Eff Res unit :=
  modify (λ r, {| sent := sent r ++ [mkEnvelope code payload meta]; nexts := nexts r |}).

(** [next()] *)
Definition next : Eff Res unit :=
  modify (λ r, {| sent := sent r; nexts := S (nexts r) |}).

(** ** [api/courses/read.js] *)

(** [req.query], as the query parser leaves it. *)
Record Query (Filter : Type) := mkQuery {
  q_aggregate : Filter;
  q_limit : Z;
  q_page : Z }.
Arguments mkQuery {Filter}.
Arguments q_aggregate {Filter}.
Arguments q_limit {Filter}.
Arguments q_page {Filter}.

(** [listCourses(req, res)].  [Courses.paginate] is a parameter: it receives
    the three query values and nothing else, in particular not [res]. *)
Definition listCourses {Filter} (Courses_paginate : Filter → Z → Z → Settlement PageResult)
    (query : Query Filter) : Eff Res (Settlement unit) :=
  p ← then_ (Courses_paginate (q_aggregate query) (q_limit query) (q_page query))
        (λ result, send (Items (result_data result)) OK
                        (PaginateMeta (result_paginate result)));
  catch_ p (λ err, send (Text (stack err)) INTERNAL_SERVER_ERROR NoMeta).

(** ** Joi, as far as [update.validate.js] uses it *)

(** Joi is a library the middleware imports.  The interpreter below follows
    its documented behaviour for the four schema kinds the middleware
    builds, under the options Joi applies when the caller gives none: a key
    is optional unless marked otherwise, a key the object schema does not
    name is rejected, [null] and the empty string are rejected by
    [Joi.string()], strings are converted where the schema asks for a
    number, an array or an object, and validation stops at the first
    error. *)

(** The presence flag of a schema; [optional] unless [.required()] or
    [.forbidden()] is called on it. *)
Inductive Presence := optional | required | forbidden.

(** Schemas built by [Joi.string().max], [Joi.number().min().max],
    [Joi.array().items().min] and [Joi.object]. *)
Inductive Schema :=
| Str (presence : Presence) (max : option nat)
| Num (presence : Presence) (min max : option Q)
| Arr (presence : Presence) (items : option Schema) (min : option nat)
| Obj (presence : Presence) (children : list (string * Schema)).

Definition presence_of (s : Schema) : Presence :=
  match s with
  | Str p _ | Num p _ _ | Arr p _ _ | Obj p _ => p
  end.

(** The keys an object schema names, with their schemas. *)
Definition children_of (s : Schema) : list (string * Schema) :=
  match s with
  | Obj _ children => children
  | _ => []
  end.

(** Validation options; [defaults] are the ones Joi applies when the caller
    passes none. *)
Record Options := mkOptions {
  abortEarly : bool;
  convert : bool;
  allowUnknown : bool }.

Definition defaults : Options :=
  {| abortEarly := true; convert := true; allowUnknown := false |}.

(** [value[key]] on an object literal: the first binding of [key]. *)
Fixpoint lookup_field (key : string) (fields : list (string * Json)) : option Json :=
  match fields with
  | [] => None
  | (k, v) :: rest => if String.eqb k key then Some v else lookup_field key rest
  end.

Definition has_key {A} (key : string) (l : list (string * A)) : bool :=
  existsb (λ kv, String.eqb (fst kv) key) l.

(** With [abortEarly], the first group of errors ends the validation. *)
Definition and_then (o : Options) (first rest : list Detail) : list Detail :=
  match first with
  | [] => rest
  | _ :: _ => if abortEarly o then first else first ++ rest
  end.

(** The builtins of the runtime the validator relies on: the conversions Joi
    applies to a string under [convert] (to a number for [Joi.number()],
    through [JSON.parse] for [Joi.array()] and [Joi.object()]), and
    [new Date().getFullYear()]. *)
Record Builtins := mkBuiltins {
  toNumber : string → option Q;
  JSON_parse : string → option Json;
  currentYear : Z }.

Section Joi.

Variable js : Builtins.

Definition as_number (o : Options) (v : Json) : option Q :=
  match v with
  | JNum q => Some q
  | JStr s => if convert o then toNumber js s else None
  | _ => None
  end.

Definition as_array (o : Options) (v : Json) : option (list Json) :=
  match v with
  | JArr l => Some l
  | JStr s =>
      if convert o then
        match JSON_parse js s with Some (JArr l) => Some l | _ => None end
      else None
  | _ => None
  end.

Definition as_object (o : Options) (v : Json) : option (list (string * Json)) :=
  match v with
  | JObj f => Some f
  | JStr s =>
      if convert o then
        match JSON_parse js s with Some (JObj f) => Some f | _ => None end
      else None
  | _ => None
  end.

(** The keys of [fields] that no child schema names, each reported as
    [object.allowUnknown]. *)
Definition unknown_keys (o : Options) (at_ : list string)
    (children : list (string * Schema)) (fields : list (string * Json)) : list Detail :=
  if allowUnknown o then []
  else
    omap (λ kv, if has_key (fst kv) children then None
                else Some (mkDetail (at_ ++ [fst kv]) "object.allowUnknown"))
         fields.

(** The items of an array against the item schema, in index order;
    [check i x] validates item [x] at index [i]. *)
Definition each_item (o : Options) (check : nat → Json → list Detail)
    : list Json → nat → list Detail :=
  fix each (l : list Json) (i : nat) : list Detail :=
    match l with
    | [] => []
    | x :: l' => and_then o (check i x) (each l' (S i))
    end.

(** The children of an object schema, in the order of the schema;
    [check key child x] validates the value [x] found under [key]. *)
Definition each_child (o : Options) (at_ : list string)
    (check : string → Schema → Json → list Detail) (fields : list (string * Json))
    : list (string * Schema) → list Detail :=
  fix each (cs : list (string * Schema)) : list Detail :=
    match cs with
    | [] => []
    | (key, child) :: cs' =>
        and_then o
          match lookup_field key fields with
          | Some x =>
              match presence_of child with
              | forbidden => [mkDetail (at_ ++ [key]) "any.unknown"]
              | _ => check key child x
              end
          | None =>
              match presence_of child with
              | required => [mkDetail (at_ ++ [key]) "any.required"]
              | _ => []
              end
          end
          (each cs')
    end.

(** [schema._validate(value)]: the leaf errors, each with its path; the
    empty list when [value] is valid. *)
Fixpoint validate_at (o : Options) (at_ : list string) (s : Schema) (v : Json) : list Detail :=
  match s with
  | Str _ max =>
      match v with
      | JStr str =>
          if String.eqb str "" then [mkDetail at_ "any.empty"]
          else
            match max with
            | Some n => if (String.length str <=? n)%nat then []
                        else [mkDetail at_ "string.max"]
            | None => []
            end
      | _ => [mkDetail at_ "string.base"]
      end
  | Num _ min max =>
      match as_number o v with
      | Some q =>
          and_then o
            match min with
            | Some lo => if Qle_bool lo q then [] else [mkDetail at_ "number.min"]
            | None => []
            end
            match max with
            | Some hi => if Qle_bool q hi then [] else [mkDetail at_ "number.max"]
            | None => []
            end
      | None => [mkDetail at_ "number.base"]
      end
  | Arr _ items min =>
      match as_array o v with
      | Some l =>
          and_then o
            match items with
            | Some item =>
                each_item o (λ i x, validate_at o (at_ ++ [pretty i]) item x) l 0%nat
            | None => []
            end
            match min with
            | Some n => if (n <=? length l)%nat then [] else [mkDetail at_ "array.min"]
            | None => []
            end
      | None => [mkDetail at_ "array.base"]
      end
  | Obj _ children =>
      match as_object o v with
      | Some fields =>
          and_then o
            (each_child o at_
               (λ key child x, validate_at o (at_ ++ [key]) child x) fields children)
            (unknown_keys o at_ children fields)
      | None => [mkDetail at_ "object.base"]
      end
  end.

(** [schema.validate(value, callback)]: the callback receives [null], or an
    error whose [details] are the leaf errors. *)
Definition validate (s : Schema) (v : Json) : option (list Detail) :=
  match validate_at defaults [] s v with
  | [] => None
  | d :: ds => Some (d :: ds)
  end.

(** ** [api/artists/_validates/update.validate.js] *)

(** The schema literal of the middleware. *)
Definition update_schema : Schema :=
  Obj optional
    [ ("name", Str optional (Some 50%nat));
      ("genres", Arr optional (Some (Str optional None)) (Some 1%nat));
      ("originYear", Num optional (Some (inject_Z 1500)) (Some (inject_Z (currentYear js)))) ].

(** The exported middleware [(req, res, next)], on [req.body]. *)
Definition update_validate (body : Json) : Eff Res unit :=
  match validate update_schema body with
  | Some details => send (Details details) UNPROCESSABLE_ENTITY NoMeta
  | None => next
  end.

(** *** What each field of the schema asks of a value *)

Definition nonempty_string (v : Json) : bool :=
  match v with
  | JStr s => negb (String.eqb s "")
  | _ => false
  end.

(** [name]: a string that is not empty and has at most 50 characters. *)
Definition name_ok (v : Json) : bool :=
  match v with
  | JStr s => negb (String.eqb s "") && (String.length s <=? 50)%nat
  | _ => false
  end.

(** [genres]: an array of at least one item, all of them non-empty
    strings. *)
Definition genres_ok (v : Json) : bool :=
  match as_array defaults v with
  | Some l => forallb nonempty_string l && (1 <=? length l)%nat
  | None => false
  end.

(** [originYear]: a number between 1500 and the current year. *)
Definition originYear_ok (v : Json) : bool :=
  match as_number defaults v with
  | Some q => Qle_bool (inject_Z 1500) q && Qle_bool q (inject_Z (currentYear js))
  | None => false
  end.

(** The constraint of a field of the body, by its key; a key the schema
    does not name is not allowed. *)
Definition field_ok (key : string) (v : Json) : bool :=
  if String.eqb key "name" then name_ok v
  else if String.eqb key "genres" then genres_ok v
  else if String.eqb key "originYear" then originYear_ok v
  else false.

(** What the schema asks of the value found under [key], if any. *)
Definition child_ok (key : string) (fields : list (string * Json)) : Prop :=
  match lookup_field key fields with
  | Some v => field_ok key v = true
  | None => True
  end.

End Joi.

(** The two ways the middleware leaves the response: [next()] called once
    and nothing sent, or one 422 envelope with the error details. *)
Definition passed : Res := {| sent := []; nexts := 1 |}.

Definition rejected_with (details : list Detail) : Res :=
  {| sent := [ {| env_status := UNPROCESSABLE_ENTITY;
                  env_data := Details details;
                  env_meta := NoMeta |} ];
     nexts := 0 |}.

(** ** The pagination engine ([Courses.paginate]) *)

Section Pagination.

(** The aggregate filter is opaque to the engine; the datastore either
    rejects it as malformed or reads it as a predicate on records. *)
Variable Filter : Type.
Variable compile : Filter → option (Json → bool).

(** Modelled from the spec: the Datastore collaborator is absent.  A
    snapshot of the collection, reachable or not. *)
Record Datastore := mkDatastore { reachable : bool; records : list Json }.

Definition unreachable_error : JsError :=
  {| message := "datastore unreachable"; stack := "QueryError: datastore unreachable" |}.
Definition malformed_error : JsError :=
  {| message := "filter malformed"; stack := "QueryError: filter malformed" |}.

(** Modelled from the spec: the records the datastore selects for a
    filter, or the error of the query. *)
Definition matching (f : Filter) (ds : Datastore) : JsError + list Json :=
  if reachable ds then
    match compile f with
    | Some p => inr (List.filter p (records ds))
    | None => inl malformed_error
    end
  else inl unreachable_error.

(** Modelled from the spec: [countMatching(filter)] of the Datastore
    collaborator. *)
Definition countMatching (f : Filter) (ds : Datastore) : JsError + Z :=
  match matching f ds with
  | inr l => inr (Z.of_nat (length l))
  | inl e => inl e
  end.

(** Modelled from the spec: [fetch(filter, skip, limit)] of the Datastore
    collaborator.  What it does with a negative [skip] or [limit] is the
    collaborator's business; here both are read as zero. *)
Definition fetch (f : Filter) (skip limit : Z) (ds : Datastore) : JsError + list Json :=
  match matching f ds with
  | inr l => inr (take (Z.to_nat limit) (drop (Z.to_nat skip) l))
  | inl e => inl e
  end.

(** [ceil(a / b)] for a positive [b]. *)
Definition ceil_div (a b : Z) : Z := - ((- a) / b).

(** Modelled from the spec: the engine behind [Courses.paginate] is absent
    from the sources.  It computes [skip = (page - 1) * limit], asks the
    datastore for [totalCount = countMatching(filter)] and
    [items = fetch(filter, skip, limit)], and returns the items with the
    page metadata; a failing read rejects with the underlying cause. *)
Definition paginate (ds : Datastore) (filter : Filter) (limit page : Z)
    : Settlement PageResult :=
  let skip := (page - 1) * limit in
  match countMatching filter ds with
  | inl cause => Rejected cause
  | inr total =>
      match fetch filter skip limit ds with
      | inl cause => Rejected cause
      | inr items =>
          Fulfilled
            {| result_data := items;
               result_paginate :=
                 {| totalCount := total;
                    page := page;
                    limit := limit;
                    pageCount := ceil_div total limit |} |}
      end
  end.

(** Modelled from the spec: the same engine when the collection may change
    between its two reads, which are not transactionally linked: the count
    is taken on the state [counted] of the collection and the items are
    fetched from the possibly later state [fetched].  [paginate ds] is the
    case in which no write falls between the two reads. *)
Definition paginate_across (counted fetched : Datastore) (filter : Filter) (limit page : Z)
    : Settlement PageResult :=
  let skip := (page - 1) * limit in
  match countMatching filter counted with
  | inl cause => Rejected cause
  | inr total =>
      match fetch filter skip limit fetched with
      | inl cause => Rejected cause
      | inr items =>
          Fulfilled
            {| result_data := items;
               result_paginate :=
                 {| totalCount := total;
                    page := page;
                    limit := limit;
                    pageCount := ceil_div total limit |} |}
      end
  end.

End Pagination.

(** ** [app.js] *)

(** An inbound request, by the route that serves it once the resource
    routers are mounted. *)
Inductive Request :=
| GetCourses (query : Query Json) (answer : Settlement PageResult)
| PutArtist (body : Json).

(** The calls the process makes to its collaborators and what the runtime
    does to it, in the order they happen. *)
Inductive Event :=
| ESetTimezone (tz : string)
| EPrependListener
| ESetApp
| EUseMorgan (format : string)
| EUseBodyParser
| EUseParseQuery
| EUseCompression
| EMakeSecure (keys : list string)
| EGetHTTPSServer
| EListen (port : Z) (host : string)
| ESetupRoutines
| EListening
| ESetCors (headers : gmap string string)
| ESetLocale (locale : string)
| ESyncSettings
| ESetMongooseLocale
| EConnectDatabases (specs : gmap string ConnectionSpec) (verbose : bool)
| ESyncRouters
| EConsoleLog (text : string)
| EUnhandledRejection (reason : JsError)
| ELogsManagerLog (text : string)
| EExit (error : JsError)
| ERouted (rq : Request) (res : Res)
| EUnrouted (rq : Request).

(** What Node does with a rejected promise nobody handles: only warn, or
    raise it as an uncaught exception. *)
Inductive RejectionMode := WarnOnly | RaiseUncaught.

Record World := mkWorld {
  environment : Environment;
  trace : list Event;
  listen_callback : bool;
  listening : bool;
  connecting : bool;
  routers : bool;
  exited : bool }.

Definition initial (env : Environment) : World :=
  {| environment := env; trace := []; listen_callback := false;
     listening := false; connecting := false; routers := false;
     exited := false |}.

Definition emit (e : Event) : Eff World unit :=
  modify (λ w, {| environment := environment w; trace := trace w ++ [e];
                  listen_callback := listen_callback w; listening := listening w;
                  connecting := connecting w; routers := routers w;
                  exited := exited w |}).

Definition set_environment (env : Environment) : Eff World unit :=
  modify (λ w, {| environment := env; trace := trace w;
                  listen_callback := listen_callback w; listening := listening w;
                  connecting := connecting w; routers := routers w;
                  exited := exited w |}).

Definition set_listen_callback (b : bool) : Eff World unit :=
  modify (λ w, {| environment := environment w; trace := trace w;
                  listen_callback := b; listening := listening w;
                  connecting := connecting w; routers := routers w;
                  exited := exited w |}).

Definition set_listening (b : bool) : Eff World unit :=
  modify (λ w, {| environment := environment w; trace := trace w;
                  listen_callback := listen_callback w; listening := b;
                  connecting := connecting w; routers := routers w;
                  exited := exited w |}).

Definition set_connecting (b : bool) : Eff World unit :=
  modify (λ w, {| environment := environment w; trace := trace w;
                  listen_callback := listen_callback w; listening := listening w;
                  connecting := b; routers := routers w;
                  exited := exited w |}).

Definition set_routers (b : bool) : Eff World unit :=
  modify (λ w, {| environment := environment w; trace := trace w;
                  listen_callback := listen_callback w; listening := listening w;
                  connecting := connecting w; routers := b;
                  exited := exited w |}).

Definition exit (error : JsError) (w : World) : World :=
  {| environment := environment w; trace := trace w ++ [EExit error];
     listen_callback := listen_callback w; listening := listening w;
     connecting := connecting w; routers := routers w;
     exited := true |}.

Definition no_database_note : string := "[!]" +:+ tab +:+ " No database to connect.".

(** What is fixed for the life of the process: the profile name
    ([config.getEnvName()]), the runtime's policy for unhandled rejections
    and its builtins. *)
Record Runtime := mkRuntime {
  envName : string;
  unhandledRejections : RejectionMode;
  builtins : Builtins }.

Section App.

Variable rt : Runtime.

(** The listener given to [process.prependListener('uncaughtException')]. *)
Definition uncaughtException (error : JsError) : Eff World unit :=
  if String.eqb (envName rt) "development" then throw error
  else emit (ELogsManagerLog (stack error)).

(** [locales] is built from [environment.app.locale]; the validator gets
    its locale and its Joi catalogue. *)
Definition _setupValidator : Eff World unit :=
  w ← get;
  emit (ESetLocale (app_locale (app (environment w)))) ;;
  emit ESyncSettings.

Definition _setupRouters : Eff World unit :=
  emit ESyncRouters ;; set_routers true.

Definition _appLog (text : string) : Eff World unit :=
  if negb (String.eqb (envName rt) "test") then emit (EConsoleLog text)
  else mret tt.

Definition _setupCors : Eff World unit :=
  w ← get;
  set_environment
    (set_cors_header "x-powered-by" (app_name (app (environment w))) (environment w)) ;;
  w' ← get;
  emit (ESetCors (cors (server (environment w')))).

(** [database.connectDatabases(specs, verbose)] returns a promise that is
    still pending when the call returns. *)
Definition connectDatabases (specs : gmap string ConnectionSpec) (verbose : bool)
    : Eff World unit :=
  emit (EConnectDatabases specs verbose) ;; set_connecting true.

(** The reactions [_setupDatabase] chains on the promise of
    [connectDatabases]: [.then(() => _setupRouters()).catch(err => { throw err; })].
    They run in a later turn, once the promise has settled. *)
Definition connect_reactions (outcome : Settlement unit) : Eff World (Settlement unit) :=
  p ← then_ outcome (λ _, _setupRouters);
  catch_ p (λ err, throw err).

Definition _setupDatabase : Eff World unit :=
  _setupCors ;;
  _setupValidator ;;
  w ← get;
  if negb (size (databases (environment w)) =? 0)%nat then
    emit ESetMongooseLocale ;;
    connectDatabases (databases (environment w)) (negb (String.eqb (envName rt) "test"))
  else
    _appLog no_database_note ;;
    _setupRouters.

Definition _listenSuccess : Eff World unit :=
  _setupDatabase ;;
  w ← get;
  _appLog (nl +:+ app_name (app (environment w)) +:+ " on at "
              +:+ host (server (environment w)) +:+ ":"
              +:+ pretty (port (server (environment w))) +:+ nl) ;;
  if secure (server (environment w)) then _appLog ("[SSL_ON]" +:+ tab +:+ "Secure")
  else _appLog ("[SSL_OFF]" +:+ tab +:+ "NOT SECURE (!)").

(** The module body, from top to bottom.  [server.listen] only registers
    [_listenSuccess]; the callback runs in a later turn. *)
Definition main : Eff World unit :=
  w ← get;
  let env := environment w in
  emit (ESetTimezone (app_timezone (app env))) ;;
  emit EPrependListener ;;
  emit ESetApp ;;
  (if negb (String.eqb (envName rt) "test") then
     emit (EUseMorgan (if String.eqb (envName rt) "development" then "dev" else "combined"))
   else mret tt) ;;
  emit EUseBodyParser ;;
  emit EUseParseQuery ;;
  emit EUseCompression ;;
  emit (EMakeSecure (hpkpKeys (ssl (server env)))) ;;
  (if secure (server env) then emit EGetHTTPSServer else mret tt) ;;
  emit (EListen (port (server env)) (host (server env))) ;;
  set_listen_callback true ;;
  emit ESetupRoutines.

(** ** The event loop *)

(** What a turn of the loop delivers to the process. *)
Inductive Input :=
| Listening
| ListenFailed (error : JsError)
| DatabasesConnected
| DatabasesFailed (error : JsError)
| Incoming (rq : Request)
| Fault (error : JsError).

(** The route a mounted resource router runs for a request. *)
Definition route (rq : Request) : Eff Res unit :=
  match rq with
  | GetCourses query answer => listCourses (λ _ _ _, answer) query ;; mret tt
  | PutArtist body => update_validate (builtins rt) body
  end.

(** The promise at the end of the chain in [_setupDatabase] is dropped; if
    it ends rejected the runtime reports an unhandled rejection. *)
Definition dropped (p : Settlement unit) : Eff World unit :=
  match p with
  | Rejected reason =>
      emit (EUnhandledRejection reason) ;;
      match unhandledRejections rt with
      | RaiseUncaught => throw reason
      | WarnOnly => mret tt
      end
  | _ => mret tt
  end.

Definition task (i : Input) : Eff World unit :=
  w ← get;
  match i with
  | Listening =>
      if listen_callback w then
        set_listen_callback false ;; set_listening true ;; emit EListening ;;
        _listenSuccess
      else mret tt
  | ListenFailed error =>
      if listen_callback w then set_listen_callback false ;; throw error
      else mret tt
  | DatabasesConnected =>
      if connecting w then
        set_connecting false ;; p ← connect_reactions (Fulfilled tt); dropped p
      else mret tt
  | DatabasesFailed error =>
      if connecting w then
        set_connecting false ;; p ← connect_reactions (Rejected error); dropped p
      else mret tt
  | Incoming rq =>
      if listening w then
        if routers w then emit (ERouted rq (exec (route rq) fresh_res))
        else emit (EUnrouted rq)
      else mret tt
  | Fault error => throw error
  end.

(** One turn: an exception that escapes it goes to the
    [uncaughtException] listener, and the process ends when that listener
    throws in turn. *)
Definition turn (m : Eff World unit) (w : World) : World :=
  match m w with
  | (inr _, w') => w'
  | (inl error, w') =>
      match uncaughtException error w' with
      | (inr _, w'') => w''
      | (inl error', w'') => exit error' w''
      end
  end.

Definition step (w : World) (i : Input) : World :=
  if exited w then w else turn (task i) w.

(** The process: the module body, then one turn per input. *)
Definition start (env : Environment) : World := turn main (initial env).

Definition run (env : Environment) (inputs : list Input) : World :=
  fold_left step inputs (start env).

End App.

(** ** Vocabulary for statements about traces *)

Definition is_prepend_listener (e : Event) : bool :=
  match e with EPrependListener => true | _ => false end.
Definition is_make_secure (e : Event) : bool :=
  match e with EMakeSecure _ => true | _ => false end.
Definition is_listen (e : Event) : bool :=
  match e with EListen _ _ => true | _ => false end.
Definition is_listening (e : Event) : bool :=
  match e with EListening => true | _ => false end.
Definition is_set_cors (e : Event) : bool :=
  match e with ESetCors _ => true | _ => false end.
Definition is_set_locale (e : Event) : bool :=
  match e with ESetLocale _ => true | _ => false end.
Definition is_sync_settings (e : Event) : bool :=
  match e with ESyncSettings => true | _ => false end.
Definition is_connect (e : Event) : bool :=
  match e with EConnectDatabases _ _ => true | _ => false end.
Definition is_sync_routers (e : Event) : bool :=
  match e with ESyncRouters => true | _ => false end.
Definition is_console_log (e : Event) : bool :=
  match e with EConsoleLog _ => true | _ => false end.
Definition is_logs_manager_log (e : Event) : bool :=
  match e with ELogsManagerLog _ => true | _ => false end.
Definition is_exit (e : Event) : bool :=
  match e with EExit _ => true | _ => false end.
Definition is_routed (e : Event) : bool :=
  match e with ERouted _ _ => true | _ => false end.
Definition is_unrouted (e : Event) : bool :=
  match e with EUnrouted _ => true | _ => false end.

(** [before P Q l]: every event of [l] that satisfies [Q] has an event that
    satisfies [P] somewhere in front of it. *)
Definition before (P Q : Event → bool) (l : list Event) : Prop :=
  ∀ l1 e l2, l = l1 ++ e :: l2 → Q e = true → ∃ e', In e' l1 ∧ P e' = true.

(** The same, decided by one scan; [seen] tells whether a [P] event has
    been passed. *)
Fixpoint beforeb_from (seen : bool) (P Q : Event → bool) (l : list Event) : bool :=
  match l with
  | [] => true
  | e :: l' => (negb (Q e) || seen) && beforeb_from (seen || P e) P Q l'
  end.

Definition beforeb (P Q : Event → bool) (l : list Event) : bool :=
  beforeb_from false P Q l.

(** How many events of [l] satisfy [P]. *)
Definition occurrences (P : Event → bool) (l : list Event) : nat :=
  length (List.filter P l).

(** The service is in its serving state when the transport is bound and
    connections are accepted. *)
Definition serving (w : World) : bool := listening w && negb (exited w).

(** [Object.keys(environment.databases).length] is zero. *)
Definition no_databases (env : Environment) : bool :=
  (size (databases env) =? 0)%nat.

(** What [_appLog] lets through under the profile [profile]. *)
Definition unless_test (profile : string) (events : list Event) : list Event :=
  if String.eqb profile "test" then [] else events.

(** The two status lines at the end of [_listenSuccess]. *)
Definition status_lines (env : Environment) : list Event :=
  [ EConsoleLog (nl +:+ app_name (app env) +:+ " on at " +:+ host (server env) +:+ ":"
                   +:+ pretty (port (server env)) +:+ nl);
    EConsoleLog (if secure (server env) then "[SSL_ON]" +:+ tab +:+ "Secure"
                 else "[SSL_OFF]" +:+ tab +:+ "NOT SECURE (!)") ].

(** ** The invariant of the event loop *)

(** What holds of every world the process reaches from the environment
    [env]: how the flags, the environment object and the trace hang
    together, and in which order the stages have left their events. *)
Record consistent (env : Environment) (w : World) : Prop := mkConsistent {
  c_environment :
    environment w =
      if listening w then set_cors_header "x-powered-by" (app_name (app env)) env else env;
  c_callback : listen_callback w && listening w = false;
  c_connecting :
    connecting w && negb (listening w && negb (no_databases env) && negb (routers w)) = false;
  c_routers : routers w && negb (listening w) = false;
  c_prepend_listener : existsb is_prepend_listener (trace w) = true;
  c_make_secure : existsb is_make_secure (trace w) = true;
  c_listen : existsb is_listen (trace w) = true;
  c_listening : existsb is_listening (trace w) = listening w;
  c_set_cors : existsb is_set_cors (trace w) = listening w;
  c_set_locale : existsb is_set_locale (trace w) = listening w;
  c_sync_settings : existsb is_sync_settings (trace w) = listening w;
  c_connect : existsb is_connect (trace w) = listening w && negb (no_databases env);
  c_sync_routers : existsb is_sync_routers (trace w) = routers w;
  c_routed : existsb is_routed (trace w) && negb (routers w) = false;
  c_once : occurrences is_sync_routers (trace w) = if routers w then 1%nat else 0%nat;
  c_order1 : beforeb is_prepend_listener is_make_secure (trace w) = true;
  c_order2 : beforeb is_make_secure is_listen (trace w) = true;
  c_order3 : beforeb is_listen is_listening (trace w) = true;
  c_order4 : beforeb is_listening is_set_cors (trace w) = true;
  c_order5 : beforeb is_set_cors is_set_locale (trace w) = true;
  c_order6 : beforeb is_set_locale is_sync_settings (trace w) = true;
  c_order7 : beforeb is_sync_settings is_connect (trace w) = true;
  c_order8 : beforeb is_sync_settings is_sync_routers (trace w) = true;
  c_order9 : no_databases env || beforeb is_connect is_sync_routers (trace w) = true;
  c_order10 : beforeb is_sync_routers is_routed (trace w) = true }.

(** A world in which nothing is left that could register the routers: the
    listen callback is spent, no connect is pending and the routers are not
    mounted. *)
Definition stuck (w : World) : Prop :=
  listen_callback w = false ∧ connecting w = false ∧ routers w = false.

(** ** Sample inputs *)

Definition sample_environment (dbs : gmap string ConnectionSpec) : Environment :=
  {| app := {| app_name := "api"; app_locale := "en"; app_timezone := "UTC" |};
     server := {| host := "localhost"; port := 3000; secure := false;
                  cors := {[ "origin" := "*" ]}; ssl := {| hpkpKeys := [] |} |};
     databases := dbs |}.

Definition one_database : gmap string ConnectionSpec :=
  {[ "main" := {| uri := "mongodb://localhost/api" |} ]}.

Definition sample_error : JsError :=
  {| message := "connection refused"; stack := "Error: connection refused" |}.

(** No string conversions, and the year 2024. *)
Definition sample_builtins : Builtins :=
  {| toNumber := λ _, None; JSON_parse := λ _, None; currentYear := 2024 |}.

Definition sample_runtime (profile : string) (mode : RejectionMode) : Runtime :=
  {| envName := profile; unhandledRejections := mode; builtins := sample_builtins |}.

(** A collection of 25 records, a filter that selects all or none of them,
    and the second page of ten. *)
Definition sample_compile (f : bool) : option (Json → bool) := Some (λ _, f).

Definition sample_store : Datastore := {| reachable := true; records := repeat JNull 25 |}.

(** The same collection after ten more records were inserted. *)
Definition sample_store_later : Datastore :=
  {| reachable := true; records := repeat JNull 35 |}.

Definition sample_page : PageResult :=
  {| result_data := repeat JNull 10;
     result_paginate := {| totalCount := 25; page := 2; limit := 10; pageCount := 3 |} |}.

Definition sample_body : list (string * Json) :=
  [ ("name", JStr "Queen"); ("originYear", JNum (inject_Z 1970)) ].

(** ** Tactics *)

(** Evaluate the monadic code of [app.js] on a world given by its fields. *)
Ltac eval_app :=
  cbv beta iota zeta delta
    [step start run fold_left initial
     turn task uncaughtException dropped connect_reactions
     _listenSuccess _setupDatabase _setupCors _setupValidator _setupRouters
     connectDatabases _appLog main then_ catch_ emit set_environment
     set_listen_callback set_listening set_connecting set_routers exit
     throw get modify mbind mret Eff_bind Eff_ret
     environment trace listen_callback listening connecting routers exited];
  cbn [app server databases host port secure cors ssl set_cors_header negb].

(** Use what is known about the conditions the code branches on. *)
Ltac known_conditions :=
  repeat match goal with
         | H : ?b = true |- context [if ?b then _ else _] => rewrite H
         | H : ?b = false |- context [if ?b then _ else _] => rewrite H
         | H : ?b = true |- context [if negb ?b then _ else _] => rewrite H
         | H : ?b = false |- context [if negb ?b then _ else _] => rewrite H
         end.

(** Split on the next condition the code branches on. *)
Ltac split_condition :=
  match goal with
  | |- context [if negb ?b then _ else _] => destruct b eqn:?
  | |- context [if ?b then _ else _] =>
      lazymatch b with
      | context [if _ then _ else _] => fail
      | _ => destruct b eqn:?
      end
  | |- context [match ?m with WarnOnly => _ | RaiseUncaught => _ end] => destruct m eqn:?
  end.

Ltac crunch :=
  eval_app; repeat (first [progress known_conditions | split_condition]; eval_app).

(** ** More vocabulary for whole runs *)

Definition is_setup_routines (e : Event) : bool :=
  match e with ESetupRoutines => true | _ => false end.
Definition is_get_https_server (e : Event) : bool :=
  match e with EGetHTTPSServer => true | _ => false end.
Definition is_set_mongoose_locale (e : Event) : bool :=
  match e with ESetMongooseLocale => true | _ => false end.
Definition is_use_morgan (e : Event) : bool :=
  match e with EUseMorgan _ => true | _ => false end.

(** [not_after P Q l]: no event of [l] that satisfies [Q] has an event that
    satisfies [P] in front of it. *)
Definition not_after (P Q : Event → bool) (l : list Event) : Prop :=
  ∀ l1 e l2, l = l1 ++ e :: l2 → Q e = true → existsb P l1 = false.

Fixpoint not_afterb_from (seen : bool) (P Q : Event → bool) (l : list Event) : bool :=
  match l with
  | [] => true
  | e :: l' => negb (seen && Q e) && not_afterb_from (seen || P e) P Q l'
  end.

Definition not_afterb (P Q : Event → bool) (l : list Event) : bool :=
  not_afterb_from false P Q l.

(** What an event of a run may carry, given the profile and the environment
    the process was started with: every argument handed to a collaborator
    is computed from that environment. *)
Definition expected (rt : Runtime) (env : Environment) (e : Event) : Prop :=
  match e with
  | ESetTimezone tz => tz = app_timezone (app env)
  | EUseMorgan format =>
      String.eqb (envName rt) "test" = false ∧
      format = (if String.eqb (envName rt) "development" then "dev" else "combined")
  | EMakeSecure keys => keys = hpkpKeys (ssl (server env))
  | EGetHTTPSServer => secure (server env) = true
  | EListen p h => p = port (server env) ∧ h = host (server env)
  | ESetCors headers =>
      headers = <["x-powered-by" := app_name (app env)]> (cors (server env))
  | ESetLocale locale => locale = app_locale (app env)
  | EConnectDatabases specs verbose =>
      specs = databases env ∧
      no_databases env = false ∧
      verbose = negb (String.eqb (envName rt) "test")
  | EConsoleLog text =>
      String.eqb (envName rt) "test" = false ∧
      ((text = no_database_note ∧ no_databases env = true)
       ∨ In (EConsoleLog text) (status_lines env))
  | _ => True
  end.

(** How often the stages have run in a world reached from [env], and two
    more orderings. *)
Record tallied (env : Environment) (w : World) : Prop := mkTallied {
  t_prepend_listener : occurrences is_prepend_listener (trace w) = 1%nat;
  t_make_secure : occurrences is_make_secure (trace w) = 1%nat;
  t_listen : occurrences is_listen (trace w) = 1%nat;
  t_setup_routines : occurrences is_setup_routines (trace w) = 1%nat;
  t_listening : occurrences is_listening (trace w) = if listening w then 1%nat else 0%nat;
  t_set_cors : occurrences is_set_cors (trace w) = if listening w then 1%nat else 0%nat;
  t_set_locale : occurrences is_set_locale (trace w) = if listening w then 1%nat else 0%nat;
  t_sync_settings :
    occurrences is_sync_settings (trace w) = if listening w then 1%nat else 0%nat;
  t_connect :
    occurrences is_connect (trace w) =
      if listening w && negb (no_databases env) then 1%nat else 0%nat;
  t_seen_routines : existsb is_setup_routines (trace w) = true;
  t_seen_mongoose :
    existsb is_set_mongoose_locale (trace w) = listening w && negb (no_databases env);
  t_order_routines : beforeb is_setup_routines is_listening (trace w) = true;
  t_order_mongoose : beforeb is_set_mongoose_locale is_connect (trace w) = true;
  t_order_routed : beforeb is_listening is_routed (trace w) = true;
  t_order_unrouted : beforeb is_listening is_unrouted (trace w) = true;
  t_unrouted : not_afterb is_sync_routers is_unrouted (trace w) = true }.

(** A world with a database configured in which the routers are not
    registered yet. *)
Definition waiting (env : Environment) (w : World) : Prop :=
  no_databases env = false ∧ routers w = false ∧
  databases (environment w) = databases env.

(** A world in which the transport is not bound and no listen callback is
    left to bind it. *)
Definition unbound (w : World) : Prop :=
  listen_callback w = false ∧ listening w = false.

(** What follows the unhandled rejection of the startup chain, by runtime
    and profile. *)
Definition after_rejection (rt : Runtime) (error : JsError) : list Event :=
  match unhandledRejections rt with
  | WarnOnly => []
  | RaiseUncaught =>
      if String.eqb (envName rt) "development" then [EExit error]
      else [ELogsManagerLog (stack error)]
  end.

(** The same builtins in another year. *)
Definition in_year (js : Builtins) (year : Z) : Builtins :=
  {| toNumber := toNumber js; JSON_parse := JSON_parse js; currentYear := year |}.

(** Rewrite with the conditions already decided. *)
Ltac use_conditions :=
  repeat match goal with
         | H : ?x = true |- context [?x] => rewrite H
         | H : ?x = false |- context [?x] => rewrite H
         end.

(** One conjunct of [expected] for an event just emitted. *)
Ltac expected_piece :=
  first [ assumption
        | reflexivity
        | solve [use_conditions; reflexivity]
        | solve [left; split; [reflexivity | assumption]]
        | solve [right; unfold status_lines; use_conditions; cbn; auto] ].

(** [expected] for the events a turn has added to the trace. *)
Ltac expected_events :=
  cbn [app]; rewrite ?Forall_app; repeat split; try assumption;
  repeat match goal with
         | |- Forall _ (_ :: _) =>
             constructor; [cbn [expected]; repeat split; expected_piece |]
         | |- Forall _ [] => constructor
         end.

(** * Properties *)

(** ** The collection read handler *)

(** C9: whatever [Courses.paginate] yields, [listCourses] answers a fresh
    request with exactly one envelope: a rejection becomes one
    INTERNAL_SERVER_ERROR envelope whose data is the stack text of the cause,
    a result becomes one OK envelope with the items as data and
    [{paginate: ...}] as meta.  Nothing is sent while the promise is pending,
    [next] is never called, and the engine, which is not given [res], adds
    nothing to the envelopes sent. *)
Theorem listCourses_sends_one_envelope {Filter}
    (Courses_paginate : Filter → Z → Z → Settlement PageResult) (query : Query Filter) :
  let res := exec (listCourses Courses_paginate query) fresh_res in
  nexts res = 0%nat ∧
  sent res =
    match Courses_paginate (q_aggregate query) (q_limit query) (q_page query) with
    | Fulfilled result =>
        [ {| env_status := OK;
             env_data := Items (result_data result);
             env_meta := PaginateMeta (result_paginate result) |} ]
    | Rejected err =>
        [ {| env_status := INTERNAL_SERVER_ERROR;
             env_data := Text (stack err);
             env_meta := NoMeta |} ]
    | Pending => []
    end.
Proof.
  unfold exec, listCourses, mbind, Eff_bind, then_, catch_.
  destruct (Courses_paginate _ _ _) as [result | err | ]; simpl; split; reflexivity.
Qed.

(** ** The pagination engine *)

Section PaginationFacts.

Context {Filter : Type} (compile : Filter → option (Json → bool)).

Lemma ceil_div_bounds (a b : Z) :
  0 < b → (ceil_div a b - 1) * b < a ≤ ceil_div a b * b.
Proof.
  intros Hb. unfold ceil_div.
  pose proof (Z.div_mod (- a) b ltac:(lia)) as Hdm.
  pose proof (Z.mod_pos_bound (- a) b Hb) as Hm.
  nia.
Qed.

Lemma ceil_div_zero (b : Z) : ceil_div 0 b = 0.
Proof. unfold ceil_div. simpl. rewrite Zdiv_0_l. reflexivity. Qed.

(** A fulfilled call has read one list of matching records: the count is its
    length and the items are a window of it. *)
Lemma paginate_fulfilled (ds : Datastore) (filter : Filter) (limit page : Z)
    (r : PageResult) :
  paginate Filter compile ds filter limit page = Fulfilled r →
  ∃ l, matching Filter compile filter ds = inr l ∧
       result_data r = take (Z.to_nat limit) (drop (Z.to_nat ((page - 1) * limit)) l) ∧
       result_paginate r =
         {| totalCount := Z.of_nat (length l); page := page; limit := limit;
            pageCount := ceil_div (Z.of_nat (length l)) limit |}.
Proof.
  unfold paginate, countMatching, fetch.
  destruct (matching Filter compile filter ds) as [e | l]; [discriminate |].
  intros [= <-]. exists l. simpl. auto.
Qed.

(** C3: a call with [limit >= 1] and [page >= 1] that succeeds returns at
    most [limit] items, and its page count is the ceiling of
    [totalCount / limit]: the least number of pages of [limit] records that
    hold [totalCount] records, zero when there are none. *)
Theorem paginate_bounds (ds : Datastore) (filter : Filter) (limit page : Z)
    (r : PageResult) :
  1 ≤ limit → 1 ≤ page →
  paginate Filter compile ds filter limit page = Fulfilled r →
  0 ≤ Z.of_nat (length (result_data r)) ≤ limit ∧
  pageCount (result_paginate r) = ceil_div (totalCount (result_paginate r)) limit ∧
  (pageCount (result_paginate r) - 1) * limit < totalCount (result_paginate r)
    ≤ pageCount (result_paginate r) * limit ∧
  (totalCount (result_paginate r) = 0 → pageCount (result_paginate r) = 0).
Proof.
  intros Hlimit Hpage Hr.
  destruct (paginate_fulfilled _ _ _ _ _ Hr) as (l & _ & -> & ->). simpl.
  split; [| split; [reflexivity | split]].
  - rewrite length_take. lia.
  - apply ceil_div_bounds. lia.
  - intros ->. apply ceil_div_zero.
Qed.

Lemma paginate_across_same (ds : Datastore) (filter : Filter) (limit page : Z) :
  paginate_across Filter compile ds ds filter limit page
  = paginate Filter compile ds filter limit page.
Proof. reflexivity. Qed.

(** C4 (as amended): when the count succeeds with [totalCount > 0], [page]
    lies beyond the last page, and the fetch that follows succeeds and finds
    no more matching records than were counted (as it does when no write
    falls between the two reads), the call is fulfilled, not rejected, and
    its items are empty. *)
Theorem paginate_beyond_last_page (counted fetched : Datastore) (filter : Filter)
    (limit page total : Z) (found : list Json) :
  1 ≤ limit →
  countMatching Filter compile filter counted = inr total →
  0 < total →
  ceil_div total limit < page →
  matching Filter compile filter fetched = inr found →
  Z.of_nat (length found) ≤ total →
  ∃ r, paginate_across Filter compile counted fetched filter limit page = Fulfilled r ∧
       result_data r = [] ∧
       totalCount (result_paginate r) = total ∧
       pageCount (result_paginate r) = ceil_div total limit.
Proof.
  intros Hlimit Hcount Htotal Hpage Hfound Hlength.
  unfold paginate_across. rewrite Hcount.
  unfold fetch. rewrite Hfound.
  eexists. split; [reflexivity |]. simpl. split; [| auto].
  pose proof (ceil_div_bounds total limit ltac:(lia)) as Hb.
  rewrite drop_ge; [apply take_nil |]. nia.
Qed.

End PaginationFacts.

Lemma paginate_bounds_witness :
  0 ≤ Z.of_nat (length (result_data sample_page)) ≤ 10 ∧
  pageCount (result_paginate sample_page)
    = ceil_div (totalCount (result_paginate sample_page)) 10 ∧
  (pageCount (result_paginate sample_page) - 1) * 10
    < totalCount (result_paginate sample_page)
    ≤ pageCount (result_paginate sample_page) * 10 ∧
  (totalCount (result_paginate sample_page) = 0 →
   pageCount (result_paginate sample_page) = 0).
Proof.
  apply (paginate_bounds sample_compile sample_store true 10 2 sample_page);
    [lia | lia | reflexivity].
Defined.

Lemma paginate_beyond_last_page_witness :
  (countMatching bool sample_compile true sample_store = inr 25 ∧
   matching bool sample_compile true sample_store = inr (repeat JNull 25)) ∧
  ∃ r, paginate_across bool sample_compile sample_store sample_store true 10 4
       = Fulfilled r ∧
       result_data r = [] ∧
       totalCount (result_paginate r) = 25 ∧
       pageCount (result_paginate r) = ceil_div 25 10.
Proof.
  split; [split; reflexivity |].
  apply (paginate_beyond_last_page sample_compile sample_store sample_store true 10 4 25
           (repeat JNull 25));
    [lia | reflexivity | lia | reflexivity | reflexivity | cbn; lia].
Defined.

(** C4 as stated fails: ten records are inserted between the count and the
    fetch; the fourth page of ten lies beyond the three pages counted, and
    yet it holds five items. *)
Lemma items_beyond_last_page_after_insert :
  ∃ r, paginate_across bool sample_compile sample_store sample_store_later true 10 4
       = Fulfilled r ∧
       totalCount (result_paginate r) = 25 ∧
       pageCount (result_paginate r) = 3 ∧
       pageCount (result_paginate r) < page (result_paginate r) ∧
       result_data r = repeat JNull 5.
Proof. eexists. split; [reflexivity |]. cbn. repeat split. Qed.

(** ** The artist update validator *)

Section JoiFacts.

Variable js : Builtins.

Lemma and_then_nil (a b : list Detail) :
  and_then defaults a b = [] ↔ a = [] ∧ b = [].
Proof.
  destruct a; simpl; [tauto |]. split; [discriminate | intros [? _]; discriminate].
Qed.

Lemma validate_name (at_ : list string) (v : Json) :
  validate_at js defaults at_ (Str optional (Some 50%nat)) v = [] ↔ name_ok v = true.
Proof.
  destruct v; simpl; try (split; discriminate).
  destruct (String.eqb s ""); simpl; [split; discriminate |].
  destruct (String.length s <=? 50)%nat; simpl; split; (reflexivity || discriminate).
Qed.

Lemma validate_item (at_ : list string) (v : Json) :
  validate_at js defaults at_ (Str optional None) v = [] ↔ nonempty_string v = true.
Proof.
  destruct v; simpl; try (split; discriminate).
  destruct (String.eqb s ""); simpl; split; (reflexivity || discriminate).
Qed.

Lemma each_item_nil (check : nat → Json → list Detail) (ok : Json → bool)
    (l : list Json) (i : nat) :
  (∀ j x, check j x = [] ↔ ok x = true) →
  each_item defaults check l i = [] ↔ forallb ok l = true.
Proof.
  intros Hcheck. revert i. induction l as [| x l IH]; intros i; simpl; [tauto |].
  rewrite and_then_nil, andb_true_iff, (IH (S i)), Hcheck. tauto.
Qed.

Lemma validate_genres (at_ : list string) (v : Json) :
  validate_at js defaults at_ (Arr optional (Some (Str optional None)) (Some 1%nat)) v = []
  ↔ genres_ok js v = true.
Proof.
  unfold genres_ok. cbn [validate_at].
  destruct (as_array js defaults v) as [l |]; [| split; discriminate].
  rewrite and_then_nil, andb_true_iff.
  rewrite (each_item_nil _ nonempty_string) by (intros; apply validate_item).
  destruct (1 <=? length l)%nat; split; intros [? ?]; split;
    solve [assumption | reflexivity | discriminate].
Qed.

Lemma validate_originYear (at_ : list string) (v : Json) :
  validate_at js defaults at_
    (Num optional (Some (inject_Z 1500)) (Some (inject_Z (currentYear js)))) v = []
  ↔ originYear_ok js v = true.
Proof.
  unfold originYear_ok. cbn [validate_at].
  destruct (as_number js defaults v) as [q |]; [| split; discriminate].
  rewrite and_then_nil, andb_true_iff.
  destruct (Qle_bool (inject_Z 1500) q), (Qle_bool q (inject_Z (currentYear js)));
    split; intros [? ?]; split; (reflexivity || discriminate).
Qed.

Lemma lookup_field_In (key : string) (fields : list (string * Json)) (v : Json) :
  lookup_field key fields = Some v → In (key, v) fields.
Proof.
  induction fields as [| [k x] rest IH]; simpl; [discriminate |].
  destruct (String.eqb_spec k key) as [-> | _].
  - intros [= ->]. now left.
  - intros H. right. now apply IH.
Qed.

(** Without [allowUnknown], a key outside the schema is an error. *)
Lemma unknown_keys_nil (at_ : list string) (children : list (string * Schema))
    (fields : list (string * Json)) :
  unknown_keys defaults at_ children fields = []
  ↔ ∀ key v, In (key, v) fields → has_key key children = true.
Proof.
  unfold unknown_keys. cbn [allowUnknown defaults].
  induction fields as [| [k x] rest IH]; cbn [omap list_omap fst].
  - split; [intros _ ? ? [] | reflexivity].
  - destruct (has_key k children) eqn:Hk.
    + rewrite IH. split.
      * intros H key v [[= <- <-] | Hin]; [assumption | eauto].
      * intros H key v Hin. apply (H key v). now right.
    + split; [discriminate |].
      intros H. specialize (H k x (or_introl eq_refl)). congruence.
Qed.

Lemma field_ok_known (key : string) (v : Json) :
  field_ok js key v = true →
  has_key key (children_of (update_schema js)) = true.
Proof.
  unfold field_ok, has_key. cbn [children_of update_schema existsb fst].
  rewrite !(String.eqb_sym key).
  destruct (String.eqb "name" key); [reflexivity |].
  destruct (String.eqb "genres" key); [reflexivity |].
  destruct (String.eqb "originYear" key); [reflexivity | discriminate].
Qed.

(** The body is valid exactly when the value under each key of the schema,
    if there is one, meets the constraint of that key and no other key
    occurs. *)
Lemma update_schema_valid (fields : list (string * Json)) :
  validate_at js defaults [] (update_schema js) (JObj fields) = []
  ↔ child_ok js "name" fields ∧ child_ok js "genres" fields ∧
    child_ok js "originYear" fields ∧
    ∀ key v, In (key, v) fields →
      has_key key (children_of (update_schema js)) = true.
Proof.
  unfold update_schema. cbn [validate_at as_object children_of].
  rewrite and_then_nil, unknown_keys_nil.
  cbn [each_child presence_of]. rewrite !and_then_nil. unfold child_ok.
  destruct (lookup_field "name" fields) as [x1 |];
    destruct (lookup_field "genres" fields) as [x2 |];
    destruct (lookup_field "originYear" fields) as [x3 |];
    rewrite ?validate_name, ?validate_genres, ?validate_originYear;
    unfold field_ok; cbn [String.eqb Ascii.eqb Bool.eqb]; tauto.
Qed.

Lemma update_validate_res (body : Json) :
  exec (update_validate js body) fresh_res =
    match validate_at js defaults [] (update_schema js) body with
    | [] => passed
    | d :: ds => rejected_with (d :: ds)
    end.
Proof.
  unfold update_validate, validate.
  destruct (validate_at _ _ _ _ _); reflexivity.
Qed.

Lemma child_ok_dec (key : string) (fields : list (string * Json)) :
  child_ok js key fields ∨ ∃ v, In (key, v) fields ∧ field_ok js key v = false.
Proof.
  unfold child_ok.
  destruct (lookup_field key fields) as [v |] eqn:E; [| now left].
  destruct (field_ok js key v) eqn:Hok; [now left |].
  right. exists v. split; [apply lookup_field_In, E | assumption].
Qed.

Lemma known_keys_dec (children : list (string * Schema)) (fields : list (string * Json)) :
  (∀ key v, In (key, v) fields → has_key key children = true)
  ∨ ∃ key v, In (key, v) fields ∧ has_key key children = false.
Proof.
  induction fields as [| [k x] rest [IH | (key & v & Hin & Hk)]].
  - left. intros ? ? [].
  - destruct (has_key k children) eqn:Hk.
    + left. intros key v [[= <- <-] | Hin]; [assumption | eauto].
    + right. exists k, x. split; [now left | assumption].
  - right. exists key, v. split; [now right | assumption].
Qed.

(** C10: no field of the schema is required.  When every field present in
    the body is one of [name], [genres], [originYear] and meets its
    constraint (in particular when the body is the empty object), [next] is
    called once and nothing is sent.  When the middleware does not pass the
    request on, it sends one 422 envelope and some field present in the body
    violates its constraint; a key outside the schema counts as violating,
    Joi rejects it as not allowed. *)
Theorem update_validate_fields_optional (fields : list (string * Json)) :
  let res := exec (update_validate js (JObj fields)) fresh_res in
  exec (update_validate js (JObj [])) fresh_res = passed ∧
  ((∀ key v, In (key, v) fields → field_ok js key v = true) → res = passed) ∧
  (res ≠ passed →
     (∃ details, res = rejected_with details) ∧
     ∃ key v, In (key, v) fields ∧ field_ok js key v = false).
Proof.
  cbn zeta. split; [reflexivity |]. rewrite update_validate_res.
  pose proof (update_schema_valid fields) as Hvalid.
  destruct (validate_at _ _ _ _ _) as [| d ds].
  - split; [reflexivity | congruence].
  - split.
    + intros Hok. exfalso.
      enough ([] = d :: ds) by discriminate.
      symmetry. apply Hvalid. unfold child_ok. repeat split.
      1-3: match goal with
           | |- match lookup_field ?k ?f with _ => _ end =>
               destruct (lookup_field k f) eqn:E; [| exact I];
               apply Hok, lookup_field_In, E
           end.
      intros key v Hin. apply (field_ok_known key v), Hok, Hin.
    + intros _. split; [eauto |].
      destruct (child_ok_dec "name" fields) as [H1 | (v & ? & ?)]; [| eauto].
      destruct (child_ok_dec "genres" fields) as [H2 | (v & ? & ?)]; [| eauto].
      destruct (child_ok_dec "originYear" fields) as [H3 | (v & ? & ?)]; [| eauto].
      destruct (known_keys_dec (children_of (update_schema js)) fields)
        as [H4 | (key & v & Hin & Hk)].
      * exfalso. enough ([] = d :: ds) by discriminate.
        symmetry. apply Hvalid. auto.
      * exists key, v. split; [assumption |].
        destruct (field_ok js key v) eqn:Hok; [| reflexivity].
        apply field_ok_known in Hok. congruence.
Qed.

End JoiFacts.

Lemma update_validate_fields_optional_witness :
  (∀ key v, In (key, v) sample_body → field_ok sample_builtins key v = true) ∧
  exec (update_validate sample_builtins (JObj sample_body)) fresh_res = passed.
Proof.
  assert (Hok : ∀ key v, In (key, v) sample_body → field_ok sample_builtins key v = true).
  { intros key v [[= <- <-] | [[= <- <-] | []]]; reflexivity. }
  split; [exact Hok |].
  apply (proj1 (proj2 (update_validate_fields_optional sample_builtins sample_body))), Hok.
Defined.

(** ** Traces *)

Lemma beforeb_from_app (seen : bool) (P Q : Event → bool) (l l' : list Event) :
  beforeb_from seen P Q (l ++ l') =
    beforeb_from seen P Q l && beforeb_from (seen || existsb P l) P Q l'.
Proof.
  revert seen. induction l as [| e l IH]; intros seen; simpl.
  - now rewrite orb_false_r.
  - rewrite IH, orb_assoc, andb_assoc. reflexivity.
Qed.

Lemma beforeb_app (P Q : Event → bool) (l l' : list Event) :
  beforeb P Q (l ++ l') = beforeb P Q l && beforeb_from (existsb P l) P Q l'.
Proof. unfold beforeb. now rewrite beforeb_from_app. Qed.

Lemma occurrences_app (P : Event → bool) (l l' : list Event) :
  occurrences P (l ++ l') = (occurrences P l + occurrences P l')%nat.
Proof. unfold occurrences. now rewrite List.filter_app, length_app. Qed.

Lemma beforeb_from_spec (seen : bool) (P Q : Event → bool) (l : list Event) :
  beforeb_from seen P Q l = true ↔
  ∀ l1 e l2, l = l1 ++ e :: l2 → Q e = true →
    seen = true ∨ ∃ e', In e' l1 ∧ P e' = true.
Proof.
  revert seen. induction l as [| x l IH]; intros seen; cbn [beforeb_from].
  - split; [| reflexivity]. intros _ [| ? ?] ? ? [=].
  - rewrite andb_true_iff, IH. split.
    + intros [Hx Hl] [| y l1] e l2 [= -> ->] HQ.
      * rewrite HQ in Hx. cbn in Hx. now left.
      * destruct (Hl l1 e l2 eq_refl HQ) as [Hs | (e' & Hin & HP)].
        -- apply orb_true_iff in Hs as [-> | HP]; [now left |].
           right. exists y. split; [now left | assumption].
        -- right. exists e'. split; [now right | assumption].
    + intros H. split.
      * destruct (Q x) eqn:HQ; [| reflexivity]. cbn.
        destruct (H [] x l eq_refl HQ) as [-> | (e' & [] & _)]. reflexivity.
      * intros l1 e l2 -> HQ.
        destruct (H (x :: l1) e l2 eq_refl HQ) as [-> | (e' & [<- | Hin] & HP)].
        -- now left.
        -- left. rewrite HP. apply orb_true_r.
        -- right. eauto.
Qed.

(** The scan decides [before]. *)
Lemma beforeb_spec (P Q : Event → bool) (l : list Event) :
  beforeb P Q l = true ↔ before P Q l.
Proof.
  unfold beforeb, before. rewrite beforeb_from_spec. split.
  - intros H l1 e l2 Hl HQ. destruct (H l1 e l2 Hl HQ) as [[=] | ?]. assumption.
  - intros H l1 e l2 Hl HQ. right. eauto.
Qed.

Lemma before_trans (P Q R : Event → bool) (l : list Event) :
  before P Q l → before Q R l → before P R l.
Proof.
  intros HPQ HQR l1 e l2 -> HR.
  destruct (HQR l1 e l2 eq_refl HR) as (q & Hin & HQ).
  apply in_split in Hin as (a & b & ->).
  destruct (HPQ a q (b ++ e :: l2)) as (p & Hp & HP).
  - now rewrite <- app_assoc.
  - assumption.
  - exists p. split; [apply in_or_app; now left | assumption].
Qed.

(** ** The startup orchestrator *)

Section AppFacts.

Variable rt : Runtime.

Lemma start_consistent (env : Environment) : consistent env (start rt env).
Proof.
  crunch; split; cbn; try reflexivity; destruct (no_databases env); reflexivity.
Qed.

(** Every turn of the loop keeps the invariant. *)
Lemma step_consistent (env : Environment) (w : World) (i : Input) :
  consistent env w → consistent env (step rt w i).
Proof.
  intros [].
  destruct w as [e tr lc li co ro ex].
  cbn [environment trace listen_callback listening connecting routers exited] in *.
  unfold step. cbn [exited].
  destruct ex; [split; assumption |].
  destruct i; crunch.
  all: try (split; assumption).
  all: unfold no_databases in *.
  all: destruct li, co, ro; cbn in *; try discriminate; subst e; cbn in *.
  all: destruct (size (databases env) =? 0)%nat eqn:Hdbs; cbn in *; try discriminate.
  all: rewrite ?andb_true_r, ?andb_false_r, ?orb_false_r in *.
  all: split; cbn [environment trace listen_callback listening connecting routers exited];
       unfold no_databases;
       rewrite ?beforeb_app, ?existsb_app, ?occurrences_app;
       repeat match goal with
              | H : existsb _ _ = _ |- _ => rewrite H
              | H : beforeb _ _ _ = _ |- _ => rewrite H
              | H : occurrences _ _ = _ |- _ => rewrite H
              | H : (size _ =? 0)%nat = _ |- _ => rewrite H
              end;
       try reflexivity;
       cbn [existsb beforeb_from occurrences List.filter length Nat.add orb andb negb
            is_prepend_listener is_make_secure is_listen is_listening is_set_cors
            is_set_locale is_sync_settings is_connect is_sync_routers is_routed];
       rewrite ?andb_true_r, ?andb_false_r, ?orb_false_r, ?orb_true_r;
       try reflexivity; try assumption.
Qed.

Lemma fold_consistent (env : Environment) (inputs : list Input) (w : World) :
  consistent env w → consistent env (fold_left (step rt) inputs w).
Proof.
  revert w. induction inputs as [| i inputs IH]; intros w Hw; [exact Hw |].
  apply IH, step_consistent, Hw.
Qed.

Lemma run_consistent (env : Environment) (inputs : list Input) :
  consistent env (run rt env inputs).
Proof. apply fold_consistent, start_consistent. Qed.

Lemma run_app (env : Environment) (inputs inputs' : list Input) :
  run rt env (inputs ++ inputs') = fold_left (step rt) inputs' (run rt env inputs).
Proof. unfold run. apply fold_left_app. Qed.

(** A turn only adds events to the trace. *)
Lemma step_trace (w : World) (i : Input) :
  ∃ chunk, trace (step rt w i) = trace w ++ chunk.
Proof.
  destruct w as [e tr lc li co ro ex].
  unfold step. cbn [exited].
  destruct ex; [exists []; cbn; now rewrite app_nil_r |].
  destruct i; crunch;
    rewrite <- ?app_assoc; try (eexists; reflexivity);
    exists []; now rewrite app_nil_r.
Qed.

Lemma fold_trace (inputs : list Input) (w : World) :
  ∃ chunk, trace (fold_left (step rt) inputs w) = trace w ++ chunk.
Proof.
  revert w. induction inputs as [| i inputs IH]; intros w; cbn [fold_left].
  - exists []. now rewrite app_nil_r.
  - destruct (IH (step rt w i)) as (c2 & ->), (step_trace w i) as (c1 & ->).
    exists (c1 ++ c2). now rewrite app_assoc.
Qed.

(** Once stuck, the process stays stuck. *)
Lemma step_stuck (w : World) (i : Input) : stuck w → stuck (step rt w i).
Proof.
  destruct w as [e tr lc li co ro ex]. intros (Hlc & Hco & Hro). cbn in *. subst.
  unfold step. cbn [exited].
  destruct ex; [repeat split |].
  destruct i; crunch; repeat split.
Qed.

Lemma fold_stuck (inputs : list Input) (w : World) :
  stuck w → stuck (fold_left (step rt) inputs w).
Proof.
  revert w. induction inputs as [| i inputs IH]; intros w Hw; [exact Hw |].
  apply IH, step_stuck, Hw.
Qed.

(** The turn in which a pending connect is rejected. *)
Lemma failed_step (w : World) (error : JsError) :
  exited w = false → connecting w = true → listen_callback w = false → routers w = false →
  stuck (step rt w (DatabasesFailed error)) ∧
  In (EUnhandledRejection error) (trace (step rt w (DatabasesFailed error))).
Proof.
  destruct w as [e tr lc li co ro ex]. cbn. intros -> -> -> ->.
  crunch.
  all: split; [repeat split |]; cbn; rewrite ?in_app_iff; cbn; auto 6.
Qed.

(** A task leaves the [exited] flag alone. *)
Lemma task_exited (i : Input) (w : World) (r : JsError + unit) (w' : World) :
  task rt i w = (r, w') → exited w' = exited w.
Proof.
  destruct w as [e tr lc li co ro ex].
  destruct i; crunch; intros [= <- <-]; reflexivity.
Qed.

(** C1 (as amended): the stages leave their events in the order: fault
    listener installed, transport headers secured, [listen] called, transport
    bound, CORS headers set, validator locale set and settings synced, then
    (when a database is configured) the connect issued, then the routers
    registered, at most once.  The transport is bound before the routers are
    registered, and a request reaches a resource router only after they
    are. *)
Theorem startup_order (env : Environment) (inputs : list Input) :
  let tr := trace (run rt env inputs) in
  before is_prepend_listener is_make_secure tr ∧
  before is_make_secure is_listen tr ∧
  before is_listen is_listening tr ∧
  before is_listening is_set_cors tr ∧
  before is_set_cors is_set_locale tr ∧
  before is_set_locale is_sync_settings tr ∧
  before is_sync_settings is_connect tr ∧
  before is_sync_settings is_sync_routers tr ∧
  (no_databases env = true ∨ before is_connect is_sync_routers tr) ∧
  before is_listening is_sync_routers tr ∧
  before is_sync_routers is_routed tr ∧
  (occurrences is_sync_routers tr ≤ 1)%nat.
Proof.
  cbn zeta. destruct (run_consistent env inputs).
  rewrite beforeb_spec in *.
  repeat split; try assumption.
  - destruct (no_databases env); [now left | right].
    now apply beforeb_spec.
  - eauto using before_trans.
  - rewrite c_once0. destruct (routers _); lia.
Qed.

(** Whether the turn in which a pending connect is rejected ends the
    process. *)
Lemma failed_step_exited (w : World) (error : JsError) :
  exited w = false → connecting w = true →
  exited (step rt w (DatabasesFailed error)) =
    match unhandledRejections rt with
    | WarnOnly => false
    | RaiseUncaught => String.eqb (envName rt) "development"
    end.
Proof.
  destruct w as [e tr lc li co ro ex]. cbn. intros -> ->.
  crunch; reflexivity.
Qed.

(** No turn unbinds the transport. *)
Lemma step_listening (w : World) (i : Input) :
  listening w = true → listening (step rt w i) = true.
Proof.
  destruct w as [e tr lc li co ro ex]. cbn. intros ->.
  unfold step. cbn [exited].
  destruct ex; [reflexivity |].
  destruct i; crunch; reflexivity.
Qed.

Lemma fold_listening (inputs : list Input) (w : World) :
  listening w = true → listening (fold_left (step rt) inputs w) = true.
Proof.
  revert w. induction inputs as [| i inputs IH]; intros w Hw; [exact Hw |].
  apply IH, step_listening, Hw.
Qed.

(** C2 (as amended): when a pending connect is rejected, at least one
    database is configured and the service is already serving: the
    transport is bound and the process alive.  The catch handler re-throws,
    so the chain ends rejected with the same error; the routers are not
    registered in that turn nor in any later one, and no request ever
    reaches a resource router.  The turn of the failure ends the process
    exactly when the runtime raises unhandled rejections and the profile is
    [development]; the transport stays bound afterwards, so the service
    goes on serving for as long as the process lives. *)
Theorem connect_failure_leaves_no_routers (env : Environment) (pre : list Input)
    (error : JsError) (post : list Input) :
  exited (run rt env pre) = false →
  connecting (run rt env pre) = true →
  let w := run rt env (pre ++ DatabasesFailed error :: post) in
  no_databases env = false ∧
  listening (run rt env pre) = true ∧
  In (EUnhandledRejection error) (trace w) ∧
  routers w = false ∧
  existsb is_sync_routers (trace w) = false ∧
  existsb is_routed (trace w) = false ∧
  serving (run rt env pre) = true ∧
  exited (run rt env (pre ++ [DatabasesFailed error])) =
    match unhandledRejections rt with
    | WarnOnly => false
    | RaiseUncaught => String.eqb (envName rt) "development"
    end ∧
  listening w = true ∧
  serving w = negb (exited w).
Proof.
  intros Hex Hco. cbn zeta.
  pose proof (run_consistent env pre) as Hpre.
  pose proof (run_consistent env (pre ++ DatabasesFailed error :: post)) as Hw.
  rewrite !run_app in *. cbn [fold_left] in *.
  destruct Hpre as [_ Hlc Hcon _ _ _ _ _ _ _ _ _ _ _ _ _ _ _ _ _ _ _ _ _ _].
  rewrite Hco in Hcon. cbn in Hcon. apply negb_false_iff in Hcon.
  apply andb_true_iff in Hcon as [Hcon Hro]. apply andb_true_iff in Hcon as [Hli Hdb].
  apply negb_true_iff in Hro, Hdb. rewrite Hli, andb_true_r in Hlc.
  destruct (failed_step _ error Hex Hco Hlc Hro) as [Hstuck Hin].
  pose proof (fold_stuck post _ Hstuck) as (_ & _ & Hrouters).
  destruct (fold_trace post (step rt (run rt env pre) (DatabasesFailed error)))
    as (chunk & Htr).
  destruct Hw as [_ _ _ _ _ _ _ _ _ _ _ _ Hsync Hrouted _ _ _ _ _ _ _ _ _ _ _].
  rewrite Hrouters in *. cbn in Hrouted. rewrite andb_true_r in Hrouted.
  pose proof (fold_listening post _ (step_listening _ (DatabasesFailed error) Hli))
    as Hbound.
  unfold serving. rewrite Hbound, Hli, Hex.
  repeat split; try assumption.
  - rewrite Htr. apply in_or_app. now left.
  - now apply failed_step_exited.
Qed.

(** C5: the listener for uncaught exceptions is installed by the module
    body, before any stage.  When an exception escapes a turn, under the
    development profile the listener throws it again and the process ends;
    under any other profile the stack of the fault is given to the logs
    manager and the process goes on, its state otherwise as the turn left
    it. *)
Theorem uncaught_fault_policy (env : Environment) (inputs : list Input) (i : Input)
    (error : JsError) (w' : World) :
  exited (run rt env inputs) = false →
  task rt i (run rt env inputs) = (inl error, w') →
  before is_prepend_listener is_make_secure (trace (run rt env inputs)) ∧
  existsb is_prepend_listener (trace (run rt env inputs)) = true ∧
  if String.eqb (envName rt) "development" then
    step rt (run rt env inputs) i = exit error w' ∧
    exited (step rt (run rt env inputs) i) = true
  else
    trace (step rt (run rt env inputs) i) = trace w' ++ [ELogsManagerLog (stack error)] ∧
    exited (step rt (run rt env inputs) i) = false ∧
    listening (step rt (run rt env inputs) i) = listening w' ∧
    routers (step rt (run rt env inputs) i) = routers w' ∧
    environment (step rt (run rt env inputs) i) = environment w'.
Proof.
  intros Hex Htask.
  destruct (run_consistent env inputs) as [_ _ _ _ Hp _ _ _ _ _ _ _ _ _ _ Ho1 _ _ _ _ _ _ _ _ _].
  apply beforeb_spec in Ho1. split; [assumption |]. split; [assumption |].
  pose proof (task_exited _ _ _ _ Htask) as Hex'. rewrite Hex in Hex'.
  unfold step. rewrite Hex. unfold turn. rewrite Htask.
  unfold uncaughtException. destruct (String.eqb (envName rt) "development"); cbn; auto.
Qed.

(** C6 (as amended): the environment object is changed in one place only:
    the turn of the listen callback sets [server.cors['x-powered-by']] to
    [app.name].  All other fields keep the values they were built with,
    whatever startup stages and requests have run. *)
Theorem environment_after_startup (env : Environment) (inputs : list Input) :
  let w := run rt env inputs in
  environment w =
    (if listening w then set_cors_header "x-powered-by" (app_name (app env)) env else env) ∧
  app (environment w) = app env ∧
  databases (environment w) = databases env ∧
  host (server (environment w)) = host (server env) ∧
  port (server (environment w)) = port (server env) ∧
  secure (server (environment w)) = secure (server env) ∧
  ssl (server (environment w)) = ssl (server env) ∧
  cors (server (environment w)) =
    (if listening w then <["x-powered-by" := app_name (app env)]> (cors (server env))
     else cors (server env)).
Proof.
  cbn zeta.
  destruct (run_consistent env inputs)
    as [-> _ _ _ _ _ _ _ _ _ _ _ _ _ _ _ _ _ _ _ _ _ _ _ _].
  destruct (listening _); repeat split.
Qed.

(** C7 (as amended): with no database configured the connect is never
    issued, whatever the inputs; the turn of the listen callback sets the
    CORS headers, configures the validator, logs the note unless the profile
    is [test], registers the routers and logs the status lines unless the
    profile is [test], and leaves the service bound with its routers
    mounted. *)
Theorem startup_without_databases (env : Environment) (inputs : list Input) :
  size (databases env) = 0%nat →
  existsb is_connect (trace (run rt env inputs)) = false ∧
  trace (run rt env [Listening]) =
    trace (start rt env)
    ++ [ EListening;
         ESetCors (<["x-powered-by" := app_name (app env)]> (cors (server env)));
         ESetLocale (app_locale (app env));
         ESyncSettings ]
    ++ unless_test (envName rt) [EConsoleLog no_database_note]
    ++ [ESyncRouters]
    ++ unless_test (envName rt) (status_lines env) ∧
  routers (run rt env [Listening]) = true ∧
  listening (run rt env [Listening]) = true ∧
  exited (run rt env [Listening]) = false.
Proof.
  intros Hsize. split.
  - destruct (run_consistent env inputs)
      as [_ _ _ _ _ _ _ _ _ _ _ Hc _ _ _ _ _ _ _ _ _ _ _ _ _].
    rewrite Hc. unfold no_databases. rewrite Hsize. apply andb_false_r.
  - assert (Hdbs : (size (databases env) =? 0)%nat = true) by now rewrite Hsize.
    unfold unless_test, status_lines.
    crunch; cbn [app]; rewrite <- ?app_assoc; auto.
Qed.

(** C8: whenever the routers are registered, the validator has been given
    its locale and its settings have been synced before, in that order, in
    the branch with databases as in the branch without. *)
Theorem validation_configured_before_routers (env : Environment) (inputs : list Input)
    (l1 l2 : list Event) :
  trace (run rt env inputs) = l1 ++ ESyncRouters :: l2 →
  ∃ a locale b c, l1 = a ++ ESetLocale locale :: b ++ ESyncSettings :: c.
Proof.
  intros Htr.
  destruct (run_consistent env inputs)
    as [_ _ _ _ _ _ _ _ _ _ _ _ _ _ _ _ _ _ _ _ Ho6 _ Ho8 _ _].
  apply beforeb_spec in Ho6, Ho8.
  destruct (Ho8 l1 ESyncRouters l2 Htr eq_refl) as (s & Hin & Hs).
  destruct s; try discriminate.
  apply in_split in Hin as (l1' & c & ->).
  destruct (Ho6 l1' ESyncSettings (c ++ ESyncRouters :: l2)) as (e & Hin & He).
  - rewrite Htr, <- app_assoc. reflexivity.
  - reflexivity.
  - destruct e; try discriminate.
    apply in_split in Hin as (a & b & ->).
    exists a, locale, b, c. now rewrite <- app_assoc.
Qed.

End AppFacts.

(** ** Concrete runs *)

(** C1 as stated fails: with one database configured, the transport is bound
    and a request is taken while the routers are not registered yet. *)
Lemma transport_bound_before_routers :
  let w := run (sample_runtime "production" WarnOnly) (sample_environment one_database)
             [Listening; Incoming (PutArtist (JObj []))] in
  ¬ before is_sync_routers is_listening (trace w) ∧
  serving w = true ∧
  routers w = false ∧
  existsb is_unrouted (trace w) = true.
Proof.
  cbn zeta. rewrite <- beforeb_spec. vm_compute. repeat split. discriminate.
Qed.

(** C2 as stated fails: after a failed connect the service is still bound
    and takes requests, and under a runtime that only warns about unhandled
    rejections the fault listener has not run. *)
Lemma serving_despite_connect_failure :
  let w := run (sample_runtime "production" WarnOnly) (sample_environment one_database)
             [Listening; DatabasesFailed sample_error; Incoming (PutArtist (JObj []))] in
  no_databases (sample_environment one_database) = false ∧
  In (EUnhandledRejection sample_error) (trace w) ∧
  serving w = true ∧
  existsb is_unrouted (trace w) = true ∧
  existsb is_logs_manager_log (trace w) = false ∧
  existsb is_exit (trace w) = false.
Proof.
  cbn zeta. split; [reflexivity |]. split.
  - vm_compute. repeat first [left; reflexivity | right].
  - vm_compute. repeat split.
Qed.

(** C6 as stated fails: the listen callback changes the environment. *)
Lemma setup_cors_mutates_environment :
  environment (run (sample_runtime "production" WarnOnly) (sample_environment ∅) [Listening])
  ≠ sample_environment ∅.
Proof.
  intros H. apply (f_equal (λ e, cors (server e) !! "x-powered-by")) in H.
  vm_compute in H. discriminate.
Qed.

(** C7 as stated fails: under the test profile nothing is logged. *)
Lemma no_note_under_test_profile :
  let w := run (sample_runtime "test" WarnOnly) (sample_environment ∅) [Listening] in
  size (databases (sample_environment ∅)) = 0%nat ∧
  routers w = true ∧
  existsb is_console_log (trace w) = false.
Proof. vm_compute. repeat split. Qed.

Lemma connect_failure_leaves_no_routers_witness :
  let rt := sample_runtime "development" RaiseUncaught in
  let env := sample_environment one_database in
  let w := run rt env ([Listening] ++ DatabasesFailed sample_error
                         :: [Incoming (PutArtist (JObj []))]) in
  (exited (run rt env [Listening]) = false ∧ connecting (run rt env [Listening]) = true) ∧
  no_databases env = false ∧
  listening (run rt env [Listening]) = true ∧
  In (EUnhandledRejection sample_error) (trace w) ∧
  routers w = false ∧
  existsb is_sync_routers (trace w) = false ∧
  existsb is_routed (trace w) = false ∧
  serving (run rt env [Listening]) = true ∧
  exited (run rt env ([Listening] ++ [DatabasesFailed sample_error])) = true ∧
  listening w = true ∧
  serving w = negb (exited w).
Proof.
  cbn zeta.
  assert (Hexited : exited (run (sample_runtime "development" RaiseUncaught)
                             (sample_environment one_database) [Listening]) = false)
    by (vm_compute; reflexivity).
  assert (Hconnecting : connecting (run (sample_runtime "development" RaiseUncaught)
                                      (sample_environment one_database) [Listening]) = true)
    by (vm_compute; reflexivity).
  split; [split; assumption |].
  exact (connect_failure_leaves_no_routers (sample_runtime "development" RaiseUncaught)
           (sample_environment one_database) [Listening] sample_error
           [Incoming (PutArtist (JObj []))] Hexited Hconnecting).
Defined.

Lemma uncaught_fault_policy_witness :
  let rt := sample_runtime "production" WarnOnly in
  let w := run rt (sample_environment ∅) [Listening] in
  (exited w = false ∧ task rt (Fault sample_error) w = (inl sample_error, w)) ∧
  trace (step rt w (Fault sample_error)) = trace w ++ [ELogsManagerLog (stack sample_error)] ∧
  exited (step rt w (Fault sample_error)) = false.
Proof.
  cbn zeta.
  assert (Hexited : exited (run (sample_runtime "production" WarnOnly)
                             (sample_environment ∅) [Listening]) = false)
    by (vm_compute; reflexivity).
  split; [split; [assumption | reflexivity] |].
  pose proof (uncaught_fault_policy (sample_runtime "production" WarnOnly)
                (sample_environment ∅) [Listening] (Fault sample_error) sample_error
                _ Hexited eq_refl) as (_ & _ & Htrace & Halive & _).
  split; assumption.
Defined.

Lemma startup_without_databases_witness :
  let rt := sample_runtime "production" WarnOnly in
  let env := sample_environment ∅ in
  size (databases env) = 0%nat ∧
  existsb is_connect (trace (run rt env [Listening; Incoming (PutArtist (JObj []))])) = false ∧
  routers (run rt env [Listening]) = true ∧
  listening (run rt env [Listening]) = true.
Proof.
  cbn zeta.
  assert (Hsize : size (databases (sample_environment ∅)) = 0%nat) by reflexivity.
  split; [assumption |].
  pose proof (startup_without_databases (sample_runtime "production" WarnOnly)
                (sample_environment ∅) [Listening; Incoming (PutArtist (JObj []))] Hsize)
    as (Hconnect & _ & Hrouters & Hlistening & _).
  repeat split; assumption.
Defined.

Lemma validation_configured_before_routers_witness :
  let w := run (sample_runtime "production" WarnOnly) (sample_environment one_database)
             [Listening; DatabasesConnected] in
  trace w = take 18 (trace w) ++ ESyncRouters :: drop 19 (trace w) ∧
  ∃ a locale b c, take 18 (trace w) = a ++ ESetLocale locale :: b ++ ESyncSettings :: c.
Proof.
  cbn zeta.
  assert (Hsplit :
    trace (run (sample_runtime "production" WarnOnly) (sample_environment one_database)
             [Listening; DatabasesConnected])
    = take 18 (trace (run (sample_runtime "production" WarnOnly)
                        (sample_environment one_database) [Listening; DatabasesConnected]))
      ++ ESyncRouters
      :: drop 19 (trace (run (sample_runtime "production" WarnOnly)
                           (sample_environment one_database) [Listening; DatabasesConnected])))
    by (vm_compute; reflexivity).
  split; [exact Hsplit |].
  exact (validation_configured_before_routers (sample_runtime "production" WarnOnly)
           (sample_environment one_database) [Listening; DatabasesConnected] _ _ Hsplit).
Defined.

(** ** Worked examples *)

(** No database configured: the listen callback registers the routers in its
    own turn, before the status lines. *)
Example run_without_databases :
  trace (run (sample_runtime "production" WarnOnly) (sample_environment ∅) [Listening]) =
    [ ESetTimezone "UTC"; EPrependListener; ESetApp; EUseMorgan "combined";
      EUseBodyParser; EUseParseQuery; EUseCompression; EMakeSecure [];
      EListen 3000 "localhost"; ESetupRoutines;
      EListening;
      ESetCors (<["x-powered-by" := "api"]> {[ "origin" := "*" ]});
      ESetLocale "en"; ESyncSettings;
      EConsoleLog no_database_note;
      ESyncRouters;
      EConsoleLog (nl +:+ "api on at localhost:3000" +:+ nl);
      EConsoleLog ("[SSL_OFF]" +:+ tab +:+ "NOT SECURE (!)") ].
Proof. vm_compute. reflexivity. Qed.

(** One database configured: the status lines are logged while the connect
    is pending; a request taken meanwhile finds no router; the routers are
    registered in the turn in which the connect resolves. *)
Example run_with_database :
  trace (run (sample_runtime "production" WarnOnly) (sample_environment one_database)
           [Listening; Incoming (PutArtist (JObj [])); DatabasesConnected;
            Incoming (PutArtist (JObj []))]) =
    [ ESetTimezone "UTC"; EPrependListener; ESetApp; EUseMorgan "combined";
      EUseBodyParser; EUseParseQuery; EUseCompression; EMakeSecure [];
      EListen 3000 "localhost"; ESetupRoutines;
      EListening;
      ESetCors (<["x-powered-by" := "api"]> {[ "origin" := "*" ]});
      ESetLocale "en"; ESyncSettings;
      ESetMongooseLocale;
      EConnectDatabases one_database true;
      EConsoleLog (nl +:+ "api on at localhost:3000" +:+ nl);
      EConsoleLog ("[SSL_OFF]" +:+ tab +:+ "NOT SECURE (!)");
      EUnrouted (PutArtist (JObj []));
      ESyncRouters;
      ERouted (PutArtist (JObj [])) passed ].
Proof. vm_compute. reflexivity. Qed.

(** A failed connect under a runtime that raises unhandled rejections: in
    production the listener logs the stack and the process stays up without
    routers; in development the listener throws and the process ends. *)
Example run_with_failed_connect_production :
  let w := run (sample_runtime "production" RaiseUncaught) (sample_environment one_database)
             [Listening; DatabasesFailed sample_error; Incoming (PutArtist (JObj []))] in
  drop 18 (trace w) =
    [ EUnhandledRejection sample_error;
      ELogsManagerLog "Error: connection refused";
      EUnrouted (PutArtist (JObj [])) ] ∧
  serving w = true ∧ routers w = false.
Proof. vm_compute. repeat split. Qed.

Example run_with_failed_connect_development :
  let w := run (sample_runtime "development" RaiseUncaught) (sample_environment one_database)
             [Listening; DatabasesFailed sample_error; Incoming (PutArtist (JObj []))] in
  drop 18 (trace w) = [ EUnhandledRejection sample_error; EExit sample_error ] ∧
  exited w = true ∧ routers w = false.
Proof. vm_compute. repeat split. Qed.

(** The validator on a few bodies. *)
Example validate_empty_body :
  exec (update_validate sample_builtins (JObj [])) fresh_res = passed.
Proof. reflexivity. Qed.

Example validate_empty_name :
  exec (update_validate sample_builtins (JObj [("name", JStr "")])) fresh_res
  = rejected_with [ {| path := ["name"]; type := "any.empty" |} ].
Proof. reflexivity. Qed.

Example validate_no_genres :
  exec (update_validate sample_builtins (JObj [("genres", JArr [])])) fresh_res
  = rejected_with [ {| path := ["genres"]; type := "array.min" |} ].
Proof. reflexivity. Qed.

Example validate_future_year :
  exec (update_validate sample_builtins (JObj [("originYear", JNum (inject_Z 2025))]))
    fresh_res
  = rejected_with [ {| path := ["originYear"]; type := "number.max" |} ].
Proof. reflexivity. Qed.

Example validate_unknown_key :
  exec (update_validate sample_builtins (JObj [("name", JStr "Queen"); ("label", JStr "EMI")]))
    fresh_res
  = rejected_with [ {| path := ["label"]; type := "object.allowUnknown" |} ].
Proof. reflexivity. Qed.

(** The engine on the second page of ten out of 25 records, and on an empty
    selection. *)
Example paginate_second_page :
  paginate bool sample_compile sample_store true 10 2 = Fulfilled sample_page.
Proof. reflexivity. Qed.

Example paginate_nothing_matches :
  paginate bool sample_compile sample_store false 10 1 =
    Fulfilled {| result_data := [];
                 result_paginate :=
                   {| totalCount := 0; page := 1; limit := 10; pageCount := 0 |} |}.
Proof. reflexivity. Qed.

Example paginate_unreachable :
  paginate bool sample_compile {| reachable := false; records := [] |} true 10 1 =
    Rejected unreachable_error.
Proof. reflexivity. Qed.

(** * Further properties of whole runs *)

Lemma not_afterb_from_app (seen : bool) (P Q : Event → bool) (l l' : list Event) :
  not_afterb_from seen P Q (l ++ l') =
    not_afterb_from seen P Q l && not_afterb_from (seen || existsb P l) P Q l'.
Proof.
  revert seen. induction l as [| e l IH]; intros seen; simpl.
  - now rewrite orb_false_r.
  - rewrite IH, orb_assoc, andb_assoc. reflexivity.
Qed.

Lemma not_afterb_app (P Q : Event → bool) (l l' : list Event) :
  not_afterb P Q (l ++ l') =
    not_afterb P Q l && not_afterb_from (existsb P l) P Q l'.
Proof. unfold not_afterb. now rewrite not_afterb_from_app. Qed.

Lemma not_afterb_from_spec (seen : bool) (P Q : Event → bool) (l : list Event) :
  not_afterb_from seen P Q l = true →
  ∀ l1 e l2, l = l1 ++ e :: l2 → Q e = true → seen || existsb P l1 = false.
Proof.
  revert seen. induction l as [| x l IH]; intros seen; cbn [not_afterb_from].
  - intros _ [| ? ?] ? ? [=].
  - intros [Hx Hl]%andb_true_iff [| y l1] e l2 [= -> ->] HQ.
    + rewrite HQ, andb_true_r in Hx. cbn. rewrite orb_false_r.
      now apply negb_true_iff in Hx.
    + cbn. rewrite orb_assoc. apply (IH _ Hl l1 e l2 eq_refl HQ).
Qed.

(** The scan establishes [not_after]. *)
Lemma not_afterb_spec (P Q : Event → bool) (l : list Event) :
  not_afterb P Q l = true → not_after P Q l.
Proof.
  intros H l1 e l2 Hl HQ. apply (not_afterb_from_spec false P Q l H l1 e l2 Hl HQ).
Qed.

Lemma existsb_false_before (P Q : Event → bool) (l : list Event) :
  before P Q l → existsb P l = false → existsb Q l = false.
Proof.
  intros Hb HP. destruct (existsb Q l) eqn:HQ; [| reflexivity].
  apply existsb_exists in HQ as (e & Hin & He).
  apply in_split in Hin as (l1 & l2 & ->).
  destruct (Hb l1 e l2 eq_refl He) as (p & Hp & HPp).
  rewrite <- HP. symmetry. apply existsb_exists. exists p. split; [| assumption].
  apply in_or_app. now left.
Qed.

Section MoreAppFacts.

Variable rt : Runtime.


Lemma start_tallied (env : Environment) : tallied env (start rt env).
Proof.
  crunch; split; cbn; try reflexivity; destruct (no_databases env); reflexivity.
Qed.

(** Every turn of the loop keeps the tallies. *)
Lemma step_tallied (env : Environment) (w : World) (i : Input) :
  consistent env w → tallied env w → tallied env (step rt w i).
Proof.
  intros [] [].
  destruct w as [e tr lc li co ro ex].
  cbn [environment trace listen_callback listening connecting routers exited] in *.
  unfold step. cbn [exited].
  destruct ex; [split; assumption |].
  destruct i; crunch.
  all: try (split; assumption).
  all: unfold no_databases in *.
  all: destruct li, co, ro; cbn in *; try discriminate; subst e; cbn in *.
  all: destruct (size (databases env) =? 0)%nat eqn:Hdbs; cbn in *; try discriminate.
  all: rewrite ?andb_true_r, ?andb_false_r, ?orb_false_r in *.
  all: split; cbn [environment trace listen_callback listening connecting routers exited];
       unfold no_databases;
       rewrite ?beforeb_app, ?not_afterb_app, ?existsb_app, ?occurrences_app;
       repeat match goal with
              | H : existsb _ _ = _ |- _ => rewrite H
              | H : beforeb _ _ _ = _ |- _ => rewrite H
              | H : not_afterb _ _ _ = _ |- _ => rewrite H
              | H : occurrences _ _ = _ |- _ => rewrite H
              | H : (size _ =? 0)%nat = _ |- _ => rewrite H
              end;
       try reflexivity;
       cbn [existsb beforeb_from not_afterb_from occurrences List.filter length Nat.add
            orb andb negb
            is_prepend_listener is_make_secure is_listen is_listening is_set_cors
            is_set_locale is_sync_settings is_connect is_sync_routers is_routed
            is_unrouted is_setup_routines is_set_mongoose_locale];
       rewrite ?andb_true_r, ?andb_false_r, ?orb_false_r, ?orb_true_r;
       try reflexivity; try assumption.
Qed.

Lemma fold_tallied (env : Environment) (inputs : list Input) (w : World) :
  consistent env w → tallied env w →
  tallied env (fold_left (step rt) inputs w).
Proof.
  revert w. induction inputs as [| i inputs IH]; intros w Hc Ht; [exact Ht |].
  apply IH; [apply step_consistent, Hc | apply step_tallied; assumption].
Qed.

Lemma run_tallied (env : Environment) (inputs : list Input) :
  tallied env (run rt env inputs).
Proof. apply fold_tallied; [apply start_consistent | apply start_tallied]. Qed.

Lemma start_expected (env : Environment) :
  Forall (expected rt env) (trace (start rt env)).
Proof.
  crunch; expected_events.
Qed.

Lemma step_expected (env : Environment) (w : World) (i : Input) :
  consistent env w →
  Forall (expected rt env) (trace w) →
  Forall (expected rt env) (trace (step rt w i)).
Proof.
  intros [Henv Hcb _ _ _ _ _ _ _ _ _ _ _ _ _ _ _ _ _ _ _ _ _ _ _] Hall.
  destruct w as [e tr lc li co ro ex].
  cbn [environment trace listen_callback listening connecting routers exited] in *.
  unfold step. cbn [exited].
  destruct ex; [assumption |].
  destruct i; crunch; try assumption.
  all: try (destruct li; [discriminate |]; subst e).
  all: unfold no_databases in *; expected_events.
Qed.

Lemma fold_expected (env : Environment) (inputs : list Input) (w : World) :
  consistent env w →
  Forall (expected rt env) (trace w) →
  Forall (expected rt env) (trace (fold_left (step rt) inputs w)).
Proof.
  revert w. induction inputs as [| i inputs IH]; intros w Hc He; [exact He |].
  apply IH; [apply step_consistent, Hc | apply step_expected; assumption].
Qed.

Lemma run_expected (env : Environment) (inputs : list Input) :
  Forall (expected rt env) (trace (run rt env inputs)).
Proof. apply fold_expected; [apply start_consistent | apply start_expected]. Qed.

Lemma run_trace (env : Environment) (inputs : list Input) :
  ∃ chunk, trace (run rt env inputs) = trace (start rt env) ++ chunk.
Proof. apply fold_trace. Qed.

(** X1: under the test profile the process never writes to the console and
    never installs the request logger, whatever happens during the run. *)
Theorem test_profile_is_silent (env : Environment) (inputs : list Input) :
  envName rt = "test" →
  existsb is_console_log (trace (run rt env inputs)) = false ∧
  existsb is_use_morgan (trace (run rt env inputs)) = false.
Proof.
  intros Htest.
  pose proof (run_expected env inputs) as Hall. rewrite List.Forall_forall in Hall.
  split.
  - destruct (existsb _ _) eqn:H; [| reflexivity].
    apply existsb_exists in H as (e & Hin & He). destruct e; try discriminate.
    destruct (Hall _ Hin) as [Hno _]. rewrite Htest in Hno. discriminate.
  - destruct (existsb _ _) eqn:H; [| reflexivity].
    apply existsb_exists in H as (e & Hin & He). destruct e; try discriminate.
    destruct (Hall _ Hin) as [Hno _]. rewrite Htest in Hno. discriminate.
Qed.

(** X2: the headers handed to [cors.setCors] are the configured ones with
    [x-powered-by] set to the application name, a configured value for that
    key being overwritten and every other key passed on unchanged; they are
    handed over at most once in a run. *)
Theorem cors_headers_carry_app_name (env : Environment) (inputs : list Input)
    (headers : gmap string string) :
  In (ESetCors headers) (trace (run rt env inputs)) →
  headers !! "x-powered-by" = Some (app_name (app env)) ∧
  (∀ key, key ≠ "x-powered-by" → headers !! key = cors (server env) !! key) ∧
  (occurrences is_set_cors (trace (run rt env inputs)) ≤ 1)%nat.
Proof.
  intros Hin.
  pose proof (run_expected env inputs) as Hall. rewrite List.Forall_forall in Hall.
  pose proof (Hall _ Hin) as Hh. cbn in Hh. subst headers.
  split; [apply lookup_insert_eq |]. split.
  - intros key Hkey. now apply lookup_insert_ne.
  - destruct (run_tallied env inputs) as [_ _ _ _ _ -> _ _ _ _ _ _ _ _ _ _].
    destruct (listening _); lia.
Qed.

(** X3: when the connect is issued it is given the configured databases, of
    which there is at least one, and is verbose exactly when the profile is
    not [test]; the mongoose locale has been set before, and the connect is
    issued once. *)
Theorem connect_is_issued_once_with_the_configured_databases
    (env : Environment) (inputs : list Input)
    (specs : gmap string ConnectionSpec) (verbose : bool) :
  In (EConnectDatabases specs verbose) (trace (run rt env inputs)) →
  specs = databases env ∧
  size specs ≠ 0%nat ∧
  verbose = negb (String.eqb (envName rt) "test") ∧
  before is_set_mongoose_locale is_connect (trace (run rt env inputs)) ∧
  occurrences is_connect (trace (run rt env inputs)) = 1%nat.
Proof.
  intros Hin.
  pose proof (run_expected env inputs) as Hall. rewrite List.Forall_forall in Hall.
  destruct (Hall _ Hin) as (-> & Hdbs & ->).
  destruct (run_tallied env inputs)
    as [_ _ _ _ _ _ _ _ Hcount _ _ _ Horder _ _ _].
  destruct (run_consistent rt env inputs)
    as [_ _ _ _ _ _ _ _ _ _ _ Hconnect _ _ _ _ _ _ _ _ _ _ _ _ _].
  assert (Hseen : existsb is_connect (trace (run rt env inputs)) = true)
    by (apply existsb_exists; eexists; split; [exact Hin | reflexivity]).
  rewrite Hseen in Hconnect. rewrite <- Hconnect in Hcount.
  repeat split; try assumption.
  - unfold no_databases in Hdbs. intros H0. rewrite H0 in Hdbs. discriminate.
  - now apply beforeb_spec.
Qed.

Lemma start_https (env : Environment) :
  secure (server env) = true → In EGetHTTPSServer (trace (start rt env)).
Proof.
  intros Hsecure. crunch; cbn [app]; cbn; auto 12. 
Qed.

(** X4: the HTTPS server is built exactly when the environment asks for a
    secure server, and the status line that is logged never misreports it:
    [SSL_ON] is only logged for a secure server, [SSL_OFF] only for a plain
    one. *)
Theorem status_line_matches_transport (env : Environment) (inputs : list Input) :
  (In EGetHTTPSServer (trace (run rt env inputs)) ↔ secure (server env) = true) ∧
  (In (EConsoleLog ("[SSL_ON]" +:+ tab +:+ "Secure")) (trace (run rt env inputs)) →
   secure (server env) = true) ∧
  (In (EConsoleLog ("[SSL_OFF]" +:+ tab +:+ "NOT SECURE (!)")) (trace (run rt env inputs)) →
   secure (server env) = false).
Proof.
  pose proof (run_expected env inputs) as Hall. rewrite List.Forall_forall in Hall.
  split; [split |split].
  - intros Hin. exact (Hall _ Hin).
  - intros Hsecure. destruct (run_trace env inputs) as (chunk & ->).
    apply in_or_app. left. now apply start_https.
  - intros Hin. destruct (Hall _ Hin) as (_ & [[Hnote _] | Hline]); [discriminate |].
    unfold status_lines in Hline. destruct (secure (server env)); [reflexivity |].
    destruct Hline as [Heq | [Heq | []]]; discriminate.
  - intros Hin. destruct (Hall _ Hin) as (_ & [[Hnote _] | Hline]); [discriminate |].
    unfold status_lines in Hline. destruct (secure (server env)); [| reflexivity].
    destruct Hline as [Heq | [Heq | []]]; discriminate.
Qed.

(** X5: in every run the fault listener is installed, the security
    middleware applied and [listen] called exactly once; the routines are
    set up, the transport bound, the validator configured and the connect
    issued at most once; and whenever the transport is bound or a connect is
    issued, the routines have been set up before. *)
Theorem stages_run_once (env : Environment) (inputs : list Input) :
  let tr := trace (run rt env inputs) in
  occurrences is_prepend_listener tr = 1%nat ∧
  occurrences is_make_secure tr = 1%nat ∧
  occurrences is_listen tr = 1%nat ∧
  (occurrences is_setup_routines tr ≤ 1)%nat ∧
  (occurrences is_listening tr ≤ 1)%nat ∧
  (occurrences is_set_locale tr ≤ 1)%nat ∧
  (occurrences is_sync_settings tr ≤ 1)%nat ∧
  (occurrences is_connect tr ≤ 1)%nat ∧
  before is_setup_routines is_listening tr ∧
  before is_setup_routines is_connect tr.
Proof.
  cbn zeta.
  destruct (run_tallied env inputs) as [-> -> -> -> -> _ -> -> -> _ _ Hr _ _ _ _].
  pose proof (c_order4 _ _ (run_consistent rt env inputs)) as H4.
  pose proof (c_order5 _ _ (run_consistent rt env inputs)) as H5.
  pose proof (c_order6 _ _ (run_consistent rt env inputs)) as H6.
  pose proof (c_order7 _ _ (run_consistent rt env inputs)) as H7.
  apply beforeb_spec in Hr, H4, H5, H6, H7.
  repeat split; try reflexivity; try lia;
    try (destruct (listening _); cbn; try destruct (negb _); lia);
    eauto using before_trans.
Qed.

(** X6: a request is only ever handled after the security middleware is
    installed and the transport is bound, and once the routers are
    registered no request is left without a router. *)
Theorem requests_are_taken_after_setup (env : Environment) (inputs : list Input) :
  let tr := trace (run rt env inputs) in
  before is_make_secure is_unrouted tr ∧
  before is_make_secure is_routed tr ∧
  before is_listening is_unrouted tr ∧
  before is_listening is_routed tr ∧
  not_after is_sync_routers is_unrouted tr.
Proof.
  cbn zeta.
  destruct (run_tallied env inputs) as [_ _ _ _ _ _ _ _ _ _ _ _ _ Hro Hun Hna].
  pose proof (c_order2 _ _ (run_consistent rt env inputs)) as H2.
  pose proof (c_order3 _ _ (run_consistent rt env inputs)) as H3.
  apply beforeb_spec in Hro, Hun, H2, H3. apply not_afterb_spec in Hna.
  repeat split; eauto using before_trans.
Qed.

(** With a database configured, only the resolved connect registers the
    routers. *)
Lemma step_waiting (env : Environment) (w : World) (i : Input) :
  waiting env w → i ≠ DatabasesConnected → waiting env (step rt w i).
Proof.
  destruct w as [e tr lc li co ro ex]. intros (Hdbs & Hro & Henv) Hi.
  cbn in Hro, Henv. subst ro. unfold no_databases in Hdbs. rewrite <- Henv in Hdbs.
  unfold waiting, no_databases. rewrite <- Henv.
  unfold step. cbn [exited].
  destruct ex; [repeat split; assumption |].
  destruct i; try congruence; crunch; repeat split; assumption.
Qed.

Lemma fold_waiting (env : Environment) (inputs : list Input) (w : World) :
  waiting env w → routers (fold_left (step rt) inputs w) = true →
  In DatabasesConnected inputs.
Proof.
  revert w. induction inputs as [| i inputs IH]; intros w Hw Hro.
  - destruct Hw as (_ & Hfalse & _). cbn in Hro. congruence.
  - assert (Hdec : i = DatabasesConnected ∨ i ≠ DatabasesConnected)
      by (destruct i; (now left) || (right; discriminate)).
    destruct Hdec as [-> | Hi]; [now left |].
    right. apply (IH (step rt w i)); [now apply step_waiting | exact Hro].
Qed.

(** X7: with a database configured the routers are registered only if the
    connect has resolved; while it hangs or after it failed they never
    are. *)
Theorem routers_wait_for_the_connect (env : Environment) (inputs : list Input) :
  no_databases env = false →
  routers (run rt env inputs) = true →
  In DatabasesConnected inputs.
Proof.
  intros Hdbs Hro. apply (fold_waiting env inputs (start rt env)); [| exact Hro].
  unfold waiting. split; [assumption |]. crunch; split; reflexivity.
Qed.

(** X8: with a database configured, the turn of the listen callback sets
    the CORS headers, configures the validator, sets the mongoose locale,
    issues the connect and logs the status lines (unless the profile is
    [test]) while the connect is still pending and no router is registered;
    the turn in which the connect resolves registers the routers and nothing
    else. *)
Theorem startup_with_databases (env : Environment) :
  no_databases env = false →
  trace (run rt env [Listening]) =
    trace (start rt env)
    ++ [ EListening;
         ESetCors (<["x-powered-by" := app_name (app env)]> (cors (server env)));
         ESetLocale (app_locale (app env));
         ESyncSettings;
         ESetMongooseLocale;
         EConnectDatabases (databases env) (negb (String.eqb (envName rt) "test")) ]
    ++ unless_test (envName rt) (status_lines env) ∧
  connecting (run rt env [Listening]) = true ∧
  routers (run rt env [Listening]) = false ∧
  trace (run rt env [Listening; DatabasesConnected]) =
    trace (run rt env [Listening]) ++ [ESyncRouters] ∧
  routers (run rt env [Listening; DatabasesConnected]) = true ∧
  connecting (run rt env [Listening; DatabasesConnected]) = false ∧
  exited (run rt env [Listening; DatabasesConnected]) = false.
Proof.
  unfold no_databases. intros Hdbs.
  unfold unless_test, status_lines.
  crunch; cbn [app]; rewrite <- ?app_assoc; cbn [app]; auto 10.
Qed.

(** X9: when a pending connect is rejected, the chain built by
    [_setupDatabase] ends rejected and unhandled.  A runtime that only warns
    leaves it there; a runtime that raises it hands it to the fault listener,
    which ends the process under the development profile and logs the stack
    otherwise.  In every case no router is registered, and the service goes
    on serving unless the listener has ended the process. *)
Theorem connect_failure_outcome (env : Environment) (pre : list Input) (error : JsError) :
  exited (run rt env pre) = false →
  connecting (run rt env pre) = true →
  trace (run rt env (pre ++ [DatabasesFailed error])) =
    trace (run rt env pre) ++ EUnhandledRejection error :: after_rejection rt error ∧
  exited (run rt env (pre ++ [DatabasesFailed error])) =
    match unhandledRejections rt with
    | WarnOnly => false
    | RaiseUncaught => String.eqb (envName rt) "development"
    end ∧
  connecting (run rt env (pre ++ [DatabasesFailed error])) = false ∧
  routers (run rt env (pre ++ [DatabasesFailed error])) = false ∧
  serving (run rt env (pre ++ [DatabasesFailed error])) =
    match unhandledRejections rt with
    | WarnOnly => true
    | RaiseUncaught => negb (String.eqb (envName rt) "development")
    end.
Proof.
  intros Hex Hco. rewrite run_app. cbn [fold_left]. unfold serving.
  destruct (run_consistent rt env pre)
    as [_ _ Hcon _ _ _ _ _ _ _ _ _ _ _ _ _ _ _ _ _ _ _ _ _ _].
  rewrite Hco in Hcon. cbn in Hcon. apply negb_false_iff in Hcon.
  apply andb_true_iff in Hcon as [Hcon Hro]. apply andb_true_iff in Hcon as [Hli _].
  apply negb_true_iff in Hro.
  destruct (run rt env pre) as [e tr lc li co ro ex]. cbn in Hex, Hco, Hli, Hro. subst.
  unfold after_rejection.
  crunch; cbn [app]; rewrite <- ?app_assoc; cbn [app]; auto 10.
Qed.

Lemma step_unbound (w : World) (i : Input) : unbound w → unbound (step rt w i).
Proof.
  destruct w as [e tr lc li co ro ex]. intros (Hlc & Hli). cbn in *. subst.
  unfold step. cbn [exited].
  destruct ex; [repeat split |].
  destruct i; crunch; repeat split.
Qed.

Lemma fold_unbound (inputs : list Input) (w : World) :
  unbound w → unbound (fold_left (step rt) inputs w).
Proof.
  revert w. induction inputs as [| i inputs IH]; intros w Hw; [exact Hw |].
  apply IH, step_unbound, Hw.
Qed.

Lemma listen_failed_step (w : World) (error : JsError) :
  exited w = false → listen_callback w = true → listening w = false →
  unbound (step rt w (ListenFailed error)) ∧
  trace (step rt w (ListenFailed error)) =
    trace w ++ (if String.eqb (envName rt) "development" then [EExit error]
                else [ELogsManagerLog (stack error)]).
Proof.
  destruct w as [e tr lc li co ro ex]. cbn. intros -> -> ->.
  crunch; repeat split.
Qed.

(** X10: when the bind fails, the error goes to the fault listener and no
    setup stage ever runs: the environment object keeps the value it was
    built with, the validator is not configured, no connect is issued, no
    router is registered and no request is handled. *)
Theorem listen_failure_skips_setup (env : Environment) (pre : list Input)
    (error : JsError) (post : list Input) :
  exited (run rt env pre) = false →
  listen_callback (run rt env pre) = true →
  let w := run rt env (pre ++ ListenFailed error :: post) in
  environment w = env ∧
  listening w = false ∧
  connecting w = false ∧
  routers w = false ∧
  existsb is_set_cors (trace w) = false ∧
  existsb is_sync_settings (trace w) = false ∧
  existsb is_connect (trace w) = false ∧
  existsb is_sync_routers (trace w) = false ∧
  existsb is_routed (trace w) = false ∧
  existsb is_unrouted (trace w) = false ∧
  In (if String.eqb (envName rt) "development" then EExit error
      else ELogsManagerLog (stack error)) (trace w).
Proof.
  intros Hex Hlc. cbn zeta.
  pose proof (run_consistent rt env pre) as Hpre.
  pose proof (run_consistent rt env (pre ++ ListenFailed error :: post)) as Hw.
  pose proof (run_tallied env (pre ++ ListenFailed error :: post)) as Ht.
  rewrite run_app in *. cbn [fold_left] in *.
  destruct Hpre as [_ Hcb _ _ _ _ _ _ _ _ _ _ _ _ _ _ _ _ _ _ _ _ _ _ _].
  rewrite Hlc in Hcb. cbn in Hcb.
  destruct (listen_failed_step _ error Hex Hlc Hcb) as [Hunbound Htrace].
  pose proof (fold_unbound post _ Hunbound) as (_ & Hli).
  destruct (fold_trace rt post (step rt (run rt env pre) (ListenFailed error)))
    as (chunk & Htr).
  destruct Hw as [Henv _ Hcon Hro _ _ _ Hl Hcors _ Hsync Hconn Hsr Hrouted _ _ _ _ _ _ _ _ _ _ _].
  destruct Ht as [_ _ _ _ _ _ _ _ _ _ _ _ _ _ Hun _].
  rewrite Hli in *. cbn in Henv, Hcon, Hro, Hconn.
  rewrite andb_true_r in Hcon, Hro. rewrite Hro in *. cbn in Hrouted.
  rewrite andb_true_r in Hrouted.
  apply beforeb_spec in Hun.
  repeat split; try assumption.
  - apply (existsb_false_before is_listening); assumption.
  - rewrite Htr, Htrace. apply in_or_app. left. apply in_or_app. right.
    destruct (String.eqb (envName rt) "development"); now left.
Qed.

End MoreAppFacts.

(** * Further properties of the artist update validator *)

Section MoreJoiFacts.

Variable js : Builtins.

(** X11: a body that is not an object, such as a JSON array, is rejected
    with one 422 envelope whose single detail is [object.base] at the root;
    [next] is not called. *)
Theorem body_must_be_an_object (body : Json) :
  as_object js defaults body = None →
  exec (update_validate js body) fresh_res
  = rejected_with [ {| path := []; type := "object.base" |} ].
Proof.
  intros Hbody. rewrite update_validate_res.
  unfold update_schema. cbn [validate_at]. rewrite Hbody. reflexivity.
Qed.

(** In a body whose keys are distinct, a binding is the one a lookup
    finds. *)
Lemma lookup_field_distinct (key : string) (v : Json) (fields : list (string * Json)) :
  NoDup (map fst fields) → In (key, v) fields → lookup_field key fields = Some v.
Proof.
  induction fields as [| [k x] rest IH]; [intros _ [] |].
  cbn [map fst lookup_field]. rewrite NoDup_cons. intros [Hfresh Hrest] [[= -> ->] | Hin].
  - now rewrite String.eqb_refl.
  - destruct (String.eqb_spec k key) as [-> | _]; [| now apply IH].
    exfalso. apply Hfresh. apply list_elem_of_In.
    change key with (fst (key, v)). now apply in_map.
Qed.

(** X12: [name] is validated before the other fields and validation stops
    at the first error: when the body, an object with distinct keys, has a
    [name] that violates its constraint, the 422 envelope carries exactly
    one detail, about [name], whatever else the body contains. *)
Theorem name_is_checked_first (fields : list (string * Json)) (v : Json) :
  NoDup (map fst fields) →
  In ("name", v) fields →
  name_ok v = false →
  ∃ t, exec (update_validate js (JObj fields)) fresh_res
       = rejected_with [ {| path := ["name"]; type := t |} ] ∧
       (t = "string.base" ∨ t = "any.empty" ∨ t = "string.max").
Proof.
  intros Hdistinct Hin Hbad.
  pose proof (lookup_field_distinct "name" v fields Hdistinct Hin) as Hname.
  rewrite update_validate_res.
  unfold update_schema. cbn [validate_at as_object each_child presence_of].
  rewrite Hname. cbn [validate_at app].
  destruct v; cbn in Hbad |- *; eauto.
  destruct (String.eqb s ""); cbn in Hbad |- *; [eauto |].
  rewrite Hbad. cbn. eauto 6.
Qed.

Lemma originYear_ok_later (year : Z) (v : Json) :
  currentYear js ≤ year →
  originYear_ok js v = true → originYear_ok (in_year js year) v = true.
Proof.
  intros Hyear. unfold originYear_ok. cbn [in_year currentYear].
  change (as_number (in_year js year) defaults v) with (as_number js defaults v).
  destruct (as_number js defaults v) as [q |]; [| discriminate].
  rewrite !andb_true_iff, !Qle_bool_iff. intros [Hlo Hhi]. split; [assumption |].
  eapply Qle_trans; [exact Hhi |]. now rewrite <- Zle_Qle.
Qed.

(** X13: the upper bound of [originYear] moves with the clock only
    upwards: a body the middleware passes on this year is passed on in every
    later year. *)
Theorem accepted_bodies_stay_accepted (year : Z) (fields : list (string * Json)) :
  currentYear js ≤ year →
  exec (update_validate js (JObj fields)) fresh_res = passed →
  exec (update_validate (in_year js year) (JObj fields)) fresh_res = passed.
Proof.
  intros Hyear. rewrite !update_validate_res.
  pose proof (update_schema_valid js fields) as Hnow.
  pose proof (update_schema_valid (in_year js year) fields) as Hlater.
  destruct (validate_at js _ _ _ _) as [| d ds]; [intros _ | discriminate].
  destruct (proj1 Hnow eq_refl) as (Hn & Hg & Hy & Hkeys).
  enough (Hvalid : validate_at (in_year js year) defaults [] (update_schema (in_year js year))
                     (JObj fields) = []) by now rewrite Hvalid.
  apply Hlater. unfold child_ok, field_ok in *. cbn [String.eqb Ascii.eqb Bool.eqb] in *.
  repeat split.
  - exact Hn.
  - exact Hg.
  - destruct (lookup_field "originYear" fields); [| exact I].
    now apply originYear_ok_later.
  - exact Hkeys.
Qed.

Lemma passed_iff_valid (body : Json) :
  exec (update_validate js body) fresh_res = passed
  ↔ validate_at js defaults [] (update_schema js) body = [].
Proof.
  rewrite update_validate_res.
  destruct (validate_at _ _ _ _ _); split; (reflexivity || discriminate).
Qed.

Lemma single_field_valid (key : string) (v : Json) :
  field_ok js key v = true ↔
  validate_at js defaults [] (update_schema js) (JObj [(key, v)]) = [].
Proof.
  rewrite update_schema_valid. split.
  - intros Hok. pose proof (field_ok_known js key v Hok) as Hknown.
    unfold child_ok. cbn [lookup_field].
    split; [| split; [| split]].
    1-3: match goal with
         | |- context [String.eqb ?a ?k] =>
             destruct (String.eqb_spec a k) as [-> | _]; [exact Hok | exact I]
         end.
    intros k x [[= <- <-] | []]. exact Hknown.
  - intros (Hn & Hg & Hy & Hkeys).
    specialize (Hkeys key v (or_introl eq_refl)).
    unfold child_ok in *. cbn [lookup_field] in *.
    unfold has_key in Hkeys. cbn [children_of update_schema existsb fst] in Hkeys.
    rewrite !(String.eqb_sym _ key) in Hkeys.
    destruct (String.eqb_spec key "name") as [-> | _]; [exact Hn |].
    destruct (String.eqb_spec key "genres") as [-> | _]; [exact Hg |].
    destruct (String.eqb_spec key "originYear") as [-> | _]; [exact Hy | discriminate].
Qed.

(** X14: the bounds of the schema are inclusive.  A body with only a
    [name] passes exactly when the name is not empty and has at most 50
    characters; with only a numeric [originYear], exactly when the year lies
    between 1500 and the current year, both included; with only an array of
    [genres], exactly when the array is not empty and holds only non-empty
    strings. *)
Theorem field_bounds_are_inclusive :
  (∀ s, exec (update_validate js (JObj [("name", JStr s)])) fresh_res = passed
        ↔ s ≠ "" ∧ (String.length s ≤ 50)%nat) ∧
  (∀ y, exec (update_validate js (JObj [("originYear", JNum (inject_Z y))])) fresh_res
        = passed
        ↔ 1500 ≤ y ≤ currentYear js) ∧
  (∀ l, exec (update_validate js (JObj [("genres", JArr l)])) fresh_res = passed
        ↔ l ≠ [] ∧ ∀ x, In x l → ∃ s, x = JStr s ∧ s ≠ "").
Proof.
  split; [| split].
  - intros s. rewrite passed_iff_valid, <- single_field_valid.
    unfold field_ok. cbn [String.eqb Ascii.eqb Bool.eqb name_ok].
    rewrite andb_true_iff, negb_true_iff, String.eqb_neq, Nat.leb_le. reflexivity.
  - intros y. rewrite passed_iff_valid, <- single_field_valid.
    unfold field_ok. cbn [String.eqb Ascii.eqb Bool.eqb].
    unfold originYear_ok. cbn [as_number].
    rewrite andb_true_iff, !Qle_bool_iff, <- !Zle_Qle. reflexivity.
  - intros l. rewrite passed_iff_valid, <- single_field_valid.
    unfold field_ok. cbn [String.eqb Ascii.eqb Bool.eqb].
    unfold genres_ok. cbn [as_array].
    rewrite andb_true_iff, Nat.leb_le, List.forallb_forall.
    split.
    + intros [Hitems Hmin]. split; [destruct l; [cbn in Hmin; lia | discriminate] |].
      intros x Hin. specialize (Hitems x Hin). destruct x; try discriminate.
      exists s. split; [reflexivity |]. cbn in Hitems.
      now apply negb_true_iff, String.eqb_neq in Hitems.
    + intros [Hne Hitems]. split; [| destruct l; [congruence | cbn; lia]].
      intros x Hin. destruct (Hitems x Hin) as (s & -> & Hs). cbn.
      now apply negb_true_iff, String.eqb_neq.
Qed.

End MoreJoiFacts.

(** ** Concrete runs for the further properties *)

Lemma test_profile_is_silent_witness :
  let rt := sample_runtime "test" WarnOnly in
  let tr := trace (run rt (sample_environment ∅)
                     [Listening; Incoming (PutArtist (JObj []))]) in
  envName rt = "test" ∧
  existsb is_console_log tr = false ∧
  existsb is_use_morgan tr = false.
Proof.
  cbn zeta. split; [reflexivity |].
  exact (test_profile_is_silent (sample_runtime "test" WarnOnly) (sample_environment ∅)
           [Listening; Incoming (PutArtist (JObj []))] eq_refl).
Defined.

Lemma cors_headers_carry_app_name_witness :
  let tr := trace (run (sample_runtime "production" WarnOnly) (sample_environment ∅)
                     [Listening]) in
  let headers : gmap string string := <["x-powered-by" := "api"]> {[ "origin" := "*" ]} in
  In (ESetCors headers) tr ∧
  headers !! "x-powered-by" = Some "api" ∧
  (∀ key, key ≠ "x-powered-by" →
     headers !! key = ({[ "origin" := "*" ]} : gmap string string) !! key) ∧
  (occurrences is_set_cors tr ≤ 1)%nat.
Proof.
  cbn zeta.
  assert (Hin : In (ESetCors (<["x-powered-by" := "api"]> {[ "origin" := "*" ]}))
                  (trace (run (sample_runtime "production" WarnOnly)
                            (sample_environment ∅) [Listening])))
    by (vm_compute; repeat first [left; reflexivity | right]).
  split; [exact Hin |].
  exact (cors_headers_carry_app_name (sample_runtime "production" WarnOnly)
           (sample_environment ∅) [Listening] _ Hin).
Defined.

Lemma connect_is_issued_once_with_the_configured_databases_witness :
  let tr := trace (run (sample_runtime "production" WarnOnly)
                     (sample_environment one_database) [Listening]) in
  In (EConnectDatabases one_database true) tr ∧
  size one_database ≠ 0%nat ∧
  before is_set_mongoose_locale is_connect tr ∧
  occurrences is_connect tr = 1%nat.
Proof.
  cbn zeta.
  assert (Hin : In (EConnectDatabases one_database true)
                  (trace (run (sample_runtime "production" WarnOnly)
                            (sample_environment one_database) [Listening])))
    by (vm_compute; repeat first [left; reflexivity | right]).
  split; [exact Hin |].
  pose proof (connect_is_issued_once_with_the_configured_databases
                (sample_runtime "production" WarnOnly) (sample_environment one_database)
                [Listening] _ _ Hin) as (_ & Hsize & _ & Horder & Hcount).
  repeat split; assumption.
Defined.

Lemma routers_wait_for_the_connect_witness :
  let rt := sample_runtime "production" WarnOnly in
  let env := sample_environment one_database in
  (no_databases env = false ∧
   routers (run rt env [Listening; DatabasesConnected]) = true) ∧
  In DatabasesConnected [Listening; DatabasesConnected].
Proof.
  cbn zeta.
  assert (Hrouters : routers (run (sample_runtime "production" WarnOnly)
                                (sample_environment one_database)
                                [Listening; DatabasesConnected]) = true)
    by (vm_compute; reflexivity).
  split; [split; [reflexivity | exact Hrouters] |].
  exact (routers_wait_for_the_connect (sample_runtime "production" WarnOnly)
           (sample_environment one_database) [Listening; DatabasesConnected]
           eq_refl Hrouters).
Defined.

Lemma startup_with_databases_witness :
  let rt := sample_runtime "production" WarnOnly in
  let env := sample_environment one_database in
  no_databases env = false ∧
  connecting (run rt env [Listening]) = true ∧
  routers (run rt env [Listening]) = false ∧
  routers (run rt env [Listening; DatabasesConnected]) = true.
Proof.
  cbn zeta. split; [reflexivity |].
  pose proof (startup_with_databases (sample_runtime "production" WarnOnly)
                (sample_environment one_database) eq_refl)
    as (_ & Hconnecting & Hwaiting & _ & Hrouters & _).
  repeat split; assumption.
Defined.

Lemma connect_failure_outcome_witness :
  let rt := sample_runtime "production" RaiseUncaught in
  let env := sample_environment one_database in
  (exited (run rt env [Listening]) = false ∧ connecting (run rt env [Listening]) = true) ∧
  trace (run rt env ([Listening] ++ [DatabasesFailed sample_error])) =
    trace (run rt env [Listening])
    ++ [EUnhandledRejection sample_error; ELogsManagerLog (stack sample_error)] ∧
  exited (run rt env ([Listening] ++ [DatabasesFailed sample_error])) = false.
Proof.
  cbn zeta.
  assert (Hexited : exited (run (sample_runtime "production" RaiseUncaught)
                             (sample_environment one_database) [Listening]) = false)
    by (vm_compute; reflexivity).
  assert (Hconnecting : connecting (run (sample_runtime "production" RaiseUncaught)
                                      (sample_environment one_database) [Listening]) = true)
    by (vm_compute; reflexivity).
  split; [split; assumption |].
  pose proof (connect_failure_outcome (sample_runtime "production" RaiseUncaught)
                (sample_environment one_database) [Listening] sample_error
                Hexited Hconnecting) as (Htrace & Hstill & _).
  split; [exact Htrace | exact Hstill].
Defined.

Lemma listen_failure_skips_setup_witness :
  let rt := sample_runtime "production" WarnOnly in
  let env := sample_environment one_database in
  let w := run rt env ([] ++ ListenFailed sample_error :: [Listening; DatabasesConnected]) in
  (exited (run rt env []) = false ∧ listen_callback (run rt env []) = true) ∧
  environment w = env ∧
  listening w = false ∧
  routers w = false ∧
  existsb is_set_cors (trace w) = false.
Proof.
  cbn zeta.
  assert (Hexited : exited (run (sample_runtime "production" WarnOnly)
                             (sample_environment one_database) []) = false)
    by (vm_compute; reflexivity).
  assert (Hcallback : listen_callback (run (sample_runtime "production" WarnOnly)
                                         (sample_environment one_database) []) = true)
    by (vm_compute; reflexivity).
  split; [split; assumption |].
  pose proof (listen_failure_skips_setup (sample_runtime "production" WarnOnly)
                (sample_environment one_database) [] sample_error
                [Listening; DatabasesConnected] Hexited Hcallback)
    as (Henv & Hlistening & _ & Hrouters & Hcors & _).
  repeat split; assumption.
Defined.

Lemma body_must_be_an_object_witness :
  as_object sample_builtins defaults (JArr [JStr "rock"]) = None ∧
  exec (update_validate sample_builtins (JArr [JStr "rock"])) fresh_res
  = rejected_with [ {| path := []; type := "object.base" |} ].
Proof.
  split; [reflexivity |].
  exact (body_must_be_an_object sample_builtins (JArr [JStr "rock"]) eq_refl).
Defined.

Lemma name_is_checked_first_witness :
  let fields := [("genres", JArr []); ("name", JStr "")] in
  (NoDup (map fst fields) ∧ In ("name", JStr "") fields ∧ name_ok (JStr "") = false) ∧
  ∃ t, exec (update_validate sample_builtins (JObj fields)) fresh_res
       = rejected_with [ {| path := ["name"]; type := t |} ] ∧
       (t = "string.base" ∨ t = "any.empty" ∨ t = "string.max").
Proof.
  cbn zeta.
  assert (Hdistinct : NoDup (map fst [("genres", JArr []); ("name", JStr "")])).
  { cbn. apply NoDup_cons. split; [| apply NoDup_singleton].
    intros Hin. apply list_elem_of_singleton in Hin. discriminate. }
  assert (Hin : In ("name", JStr "") [("genres", JArr []); ("name", JStr "")])
    by (right; left; reflexivity).
  split; [split; [exact Hdistinct | split; [exact Hin | reflexivity]] |].
  exact (name_is_checked_first sample_builtins [("genres", JArr []); ("name", JStr "")]
           (JStr "") Hdistinct Hin eq_refl).
Defined.

Lemma accepted_bodies_stay_accepted_witness :
  (currentYear sample_builtins ≤ 2030 ∧
   exec (update_validate sample_builtins (JObj sample_body)) fresh_res = passed) ∧
  exec (update_validate (in_year sample_builtins 2030) (JObj sample_body)) fresh_res = passed.
Proof.
  assert (Hyear : currentYear sample_builtins ≤ 2030) by (cbn; lia).
  split; [split; [exact Hyear | reflexivity] |].
  exact (accepted_bodies_stay_accepted sample_builtins 2030 sample_body Hyear eq_refl).
Defined.
